(** * Cosigner pool plugin (plugins/cosigner_pool.py)

    A shallow embedding of the Electrum cosigner-pool plugin: the
    [Listener] thread that polls the pool server for messages addressed
    to the local key hashes, and the [Plugin] that rebuilds the key
    directory, sends encrypted transactions and handles received ones.

    Python objects become records, [set] becomes [gset], [dict] becomes
    [gmap]; a call that can raise returns a [pyresult]; every externally
    visible effect (RPC call, sleep, log line, signal, dialog) is an
    [event] of a trace, in program order. *)

From Stdlib Require Import Ascii String.
From stdpp Require Import gmap strings list.

(* stdpp's solvers clear some hypotheses twice; the notice says nothing
   about a proof. *)
Set Warnings "-clear-no-such-hyp".

Open Scope string_scope.
Open Scope list_scope.

(** ** Python values *)

(** Outcome of a call that may raise: [str(e)] is all the code ever
    looks at in an exception. *)
Inductive pyresult (A : Type) : Type :=
  | Returned (a : A)
  | Raised (e : string).
Arguments Returned {A} a.
Arguments Raised {A} e.

(** Truth value of a [str] ([if s:]): the empty string is false. *)
Definition truthy (s : string) : bool :=
  match s with
  | EmptyString => false
  | String _ _ => true
  end.

(** Truth value of a [str]-or-[None]. *)
Definition truthy_opt (o : option string) : bool :=
  match o with
  | None => false
  | Some s => truthy s
  end.

(** *** [s.encode('hex')] and [s.decode('hex')] *)

Definition hex_digit (n : N) : ascii :=
  match n with
  | 0%N => "0" | 1%N => "1" | 2%N => "2" | 3%N => "3"
  | 4%N => "4" | 5%N => "5" | 6%N => "6" | 7%N => "7"
  | 8%N => "8" | 9%N => "9" | 10%N => "a" | 11%N => "b"
  | 12%N => "c" | 13%N => "d" | 14%N => "e" | _ => "f"
  end%char.

Definition hex_value (c : ascii) : option N :=
  let n := N_of_ascii c in
  if ((48 <=? n) && (n <=? 57))%N then Some (n - 48)%N
  else if ((97 <=? n) && (n <=? 102))%N then Some (n - 87)%N
  else if ((65 <=? n) && (n <=? 70))%N then Some (n - 55)%N
  else None.

Fixpoint encode_hex (s : string) : string :=
  match s with
  | EmptyString => EmptyString
  | String c s' =>
      let n := N_of_ascii c in
      String (hex_digit (n / 16)) (String (hex_digit (n mod 16)) (encode_hex s'))
  end.

(** [None] stands for the [TypeError] raised on an odd length or on a
    character that is no hex digit. *)
Fixpoint decode_hex (s : string) : option string :=
  match s with
  | EmptyString => Some EmptyString
  | String hi (String lo s') =>
      match hex_value hi, hex_value lo, decode_hex s' with
      | Some h, Some l, Some r => Some (String (ascii_of_N (16 * h + l)) r)
      | _, _, _ => None
      end
  | String _ EmptyString => None
  end.

(** ** The pool server and the trace of effects *)

(** The XML-RPC proxy [server] at one instant: what each of its three
    calls would answer. [get] answers a message or [None]
    ([allow_none=True]); any call may raise. *)
Record Server := {
  server_get : string -> pyresult (option string);
  server_put : string -> string -> pyresult unit;
  server_delete : string -> pyresult unit;
}.

(** [wallet.master_public_keys] and [wallet.master_private_keys] are
    dicts from a key name to a serialized extended key; [wallet_id]
    stands for the identity of the wallet object (wallets are used as
    dict keys). *)
Record Wallet := {
  wallet_id : nat;
  wallet_type : string;
  use_encryption : bool;
  master_public_keys : gmap string string;
  master_private_keys : gmap string string;
}.

Record Window := {
  window_id : nat;
  wallet : Wallet;
}.

Inductive event :=
  | Sleep (secs : nat)                                       (* time.sleep *)
  | ServerGet (keyhash : string) (r : pyresult (option string))
  | ServerPut (keyhash message : string) (r : pyresult unit)
  | ServerDelete (keyhash : string) (r : pyresult unit)
  | PrintError (msg : list string)                           (* self.print_error *)
  | PrintExc                                                 (* traceback.print_exc *)
  | Emit (keyhash message : string)      (* obj.emit(SIGNAL("cosigner:receive"), ..) *)
  | ShowMessage (w : Window) (text : string)                 (* window.show_message *)
  | PasswordDialog (w : Window) (text : string)
  | Question (w : Window) (text : string)
  | ShowTransaction (raw : string) (w : Window).

Definition trace := list event.

Definition is_emit (k : string) (e : event) : bool :=
  match e with
  | Emit k' _ => String.eqb k k'
  | _ => false
  end.

Definition is_emit_any (e : event) : bool :=
  match e with
  | Emit _ _ => true
  | _ => false
  end.

(** A [server.get(k)] that returned a message the loop takes as present. *)
Definition is_present_get (k : string) (e : event) : bool :=
  match e with
  | ServerGet k' (Returned m) => String.eqb k k' && truthy_opt m
  | _ => false
  end.

Definition count (p : event -> bool) (tr : trace) : nat :=
  length (List.filter p tr).

(** ** Listener *)

Module Listener.

(** Where the thread stands in [run]; [rest] is what is left of the
    list the [for] statement iterates over (the list object bound to
    [self.keyhashes] when the [for] started). *)
Inductive pc :=
  | NotStarted
  | AtWhile                                          (* lines 60-63 *)
  | AtForInit                                        (* line 64, entering *)
  | AtFor (rest : list string)                       (* line 64 *)
  | AtGet (keyhash : string) (rest : list string)    (* line 68 *)
  | AtExcept (rest : list string)                    (* line 70 *)
  | AtErrSleep (rest : list string)                  (* line 71 *)
  | AtAdd (keyhash message : string) (rest : list string)   (* line 74 *)
  | AtLog (keyhash message : string) (rest : list string)   (* line 75 *)
  | AtEmit (keyhash message : string) (rest : list string)  (* line 76 *)
  | AtCycleSleep                                     (* line 79 *)
  | Exited.

Record t := {
  running : bool;
  received : gset string;
  keyhashes : list string;
  at_pc : pc;
}.

Definition with_pc (l : t) (p : pc) : t :=
  {| running := running l; received := received l;
     keyhashes := keyhashes l; at_pc := p |}.

(** [Listener.__init__]: nothing received, nothing watched; the thread
    is not running before [start]. *)
Definition init : t :=
  {| running := false; received := ∅; keyhashes := []; at_pc := NotStarted |}.

(** Modelled from the spec: [util.DaemonThread.start], "On start: begins
    a polling loop"; the loop of [run] goes on while [self.running]. *)
Definition start (l : t) : t :=
  {| running := true; received := received l;
     keyhashes := keyhashes l; at_pc := AtWhile |}.

Definition set_keyhashes (l : t) (keyhashes : list string) : t :=
  {| running := running l; received := received l;
     keyhashes := keyhashes; at_pc := at_pc l |}.

(** [set.remove] raises [KeyError] on a missing element. *)
Definition clear (srv : Server) (l : t) (keyhash : string)
  : t * trace * pyresult unit :=
  match server_delete srv keyhash with
  | Raised e => (l, [ServerDelete keyhash (Raised e)], Raised e)
  | Returned u =>
      if bool_decide (keyhash ∈ received l)
      then ({| running := running l; received := received l ∖ {[keyhash]};
               keyhashes := keyhashes l; at_pc := at_pc l |},
            [ServerDelete keyhash (Returned u)], Returned tt)
      else (l, [ServerDelete keyhash (Returned u)], Raised "KeyError")
  end.

(** One statement of [run], against the server as it is at that
    instant. *)
Definition run_step (srv : Server) (l : t) : t * trace :=
  match at_pc l with
  | NotStarted => (l, [])
  | AtWhile =>
      if running l then
        match keyhashes l with
        | [] => (l, [Sleep 2])
        | _ :: _ => (with_pc l AtForInit, [])
        end
      else (with_pc l Exited, [])
  | AtForInit => (with_pc l (AtFor (keyhashes l)), [])
  | AtFor [] => (with_pc l AtCycleSleep, [])
  | AtFor (keyhash :: rest) =>
      if bool_decide (keyhash ∈ received l)
      then (with_pc l (AtFor rest), [])
      else (with_pc l (AtGet keyhash rest), [])
  | AtGet keyhash rest =>
      match server_get srv keyhash with
      | Raised e => (with_pc l (AtExcept rest), [ServerGet keyhash (Raised e)])
      | Returned None => (with_pc l (AtFor rest), [ServerGet keyhash (Returned None)])
      | Returned (Some message) =>
          if truthy message
          then (with_pc l (AtAdd keyhash message rest),
                [ServerGet keyhash (Returned (Some message))])
          else (with_pc l (AtFor rest),
                [ServerGet keyhash (Returned (Some message))])
      end
  | AtExcept rest =>
      (with_pc l (AtErrSleep rest), [PrintError ["cannot contact cosigner pool"]])
  | AtErrSleep rest => (with_pc l (AtFor rest), [Sleep 30])
  | AtAdd keyhash message rest =>
      ({| running := running l; received := {[keyhash]} ∪ received l;
          keyhashes := keyhashes l; at_pc := AtLog keyhash message rest |}, [])
  | AtLog keyhash message rest =>
      (with_pc l (AtEmit keyhash message rest),
       [PrintError ["received message for"; keyhash]])
  | AtEmit keyhash message rest =>
      (with_pc l (AtFor rest), [Emit keyhash message])
  | AtCycleSleep => (with_pc l AtWhile, [Sleep 30])
  | Exited => (l, [])
  end.

(** The stop signal: the flag the [while] of [run] reads. *)
Definition signal_stop (l : t) : t :=
  {| running := false; received := received l;
     keyhashes := keyhashes l; at_pc := at_pc l |}.

(** Statements the thread still has to execute, at most, before it
    reads the flag again and leaves the loop. *)
Definition steps_left (l : t) : nat :=
  match at_pc l with
  | NotStarted | Exited => 0
  | AtWhile => 1
  | AtCycleSleep => 2
  | AtForInit => 4 + 6 * length (keyhashes l)
  | AtFor rest => 3 + 6 * length rest
  | AtEmit _ _ rest | AtErrSleep rest => 4 + 6 * length rest
  | AtLog _ _ rest | AtExcept rest => 5 + 6 * length rest
  | AtAdd _ _ rest => 6 + 6 * length rest
  | AtGet _ rest => 8 + 6 * length rest
  end.

(** The thread alone runs [n] statements; [srvs i] is the server as it
    is when [i] statements remain. *)
Fixpoint drain (srvs : nat -> Server) (n : nat) (l : t) : t * trace :=
  match n with
  | 0 => (l, [])
  | S n' =>
      let '(l1, t1) := run_step (srvs n') l in
      let '(l2, t2) := drain srvs n' l1 in
      (l2, t1 ++ t2)
  end.

(** Modelled from the spec: [util.DaemonThread.stop] (module [util] is
    not among the sources). "[stop()]: terminates the loop; any
    in-flight poll is allowed to finish"; "bounded wait for the
    in-flight poll to observe the stop signal". The signal is the flag
    [running] that [run] reads; the wait lets the thread run until it
    has read it. *)
Definition stop (srvs : nat -> Server) (l : t) : t * trace :=
  drain srvs (steps_left l) (signal_stop l).

(** *** Interleavings

    The thread and its callers share the listener; a schedule lists
    what happens, in order: a statement of the thread, or a call made
    from the caller's thread. *)
Inductive action :=
  | Tick (srv : Server)
  | SetKeyhashes (keyhashes : list string)
  | Clear (srv : Server) (keyhash : string)
  | SignalStop.

Definition act (a : action) (l : t) : t * trace :=
  match a with
  | Tick srv => run_step srv l
  | SetKeyhashes ks => (set_keyhashes l ks, [])
  | Clear srv k => let '(l', tr, _) := clear srv l k in (l', tr)
  | SignalStop => (signal_stop l, [])
  end.

Fixpoint run_schedule (sched : list action) (l : t) : t * trace :=
  match sched with
  | [] => (l, [])
  | a :: sched' =>
      let '(l1, t1) := act a l in
      let '(l2, t2) := run_schedule sched' l1 in
      (l2, t1 ++ t2)
  end.

Definition is_clear_of (k : string) (a : action) : bool :=
  match a with
  | Clear _ k' => String.eqb k k'
  | _ => false
  end.

(** No [clear(k)] is called in the schedule. *)
Definition no_clear (k : string) (sched : list action) : bool :=
  forallb (fun a => negb (is_clear_of k a)) sched.

(** A notification for [k] is under way: the message was fetched and
    the thread has not yet emitted the signal. *)
Definition pending (k : string) (p : pc) : bool :=
  match p with
  | AtAdd k' _ _ | AtLog k' _ _ | AtEmit k' _ _ => String.eqb k k'
  | _ => false
  end.

(** The thread has passed the membership test for [k] and is about to
    call [server.get(k)]. *)
Definition polling (k : string) (p : pc) : bool :=
  match p with
  | AtGet k' _ => String.eqb k k'
  | _ => false
  end.

Definition halted (p : pc) : bool :=
  match p with
  | NotStarted | Exited => true
  | _ => false
  end.

(** The thread is about to execute [self.received.add(k)]. *)
Definition adding (k : string) (p : pc) : bool :=
  match p with
  | AtAdd k' _ _ => String.eqb k k'
  | _ => false
  end.

(** Notifications for [k] under way: one or none. *)
Definition owed (k : string) (p : pc) : nat :=
  if pending k p then 1 else 0.

(** No message for [k] has been taken since the last [clear(k)]. *)
Definition fresh (k : string) (l : t) : Prop :=
  (k ∉ received l) ∧ pending k (at_pc l) = false.

(** A message for [k] has been taken: [k] is in [received], or is being
    put there, and the thread is not about to fetch for [k] again. *)
Definition secured (k : string) (l : t) : Prop :=
  (k ∈ received l ∨ adding k (at_pc l) = true) ∧ polling k (at_pc l) = false.

(** The notification for [k] has been emitted and [k] not cleared. *)
Definition delivered (k : string) (l : t) : Prop :=
  k ∈ received l ∧ pending k (at_pc l) = false ∧ polling k (at_pc l) = false.

(** *** One pass of the loop, uninterrupted

    The [for] statement of [run] over [ks], against a server that stays
    as it is during the pass and with no call from another thread in
    between: the set [received] at the end and the trace. *)
Fixpoint poll_all (srv : Server) (ks : list string) (rc : gset string)
  : gset string * trace :=
  match ks with
  | [] => (rc, [])
  | keyhash :: rest =>
      if bool_decide (keyhash ∈ rc) then poll_all srv rest rc
      else
        match server_get srv keyhash with
        | Raised e =>
            let '(rc', tr) := poll_all srv rest rc in
            (rc', ServerGet keyhash (Raised e)
                    :: PrintError ["cannot contact cosigner pool"]
                    :: Sleep 30 :: tr)
        | Returned None =>
            let '(rc', tr) := poll_all srv rest rc in
            (rc', ServerGet keyhash (Returned None) :: tr)
        | Returned (Some message) =>
            if truthy message then
              let '(rc', tr) := poll_all srv rest ({[keyhash]} ∪ rc) in
              (rc', ServerGet keyhash (Returned (Some message))
                      :: PrintError ["received message for"; keyhash]
                      :: Emit keyhash message :: tr)
            else
              let '(rc', tr) := poll_all srv rest rc in
              (rc', ServerGet keyhash (Returned (Some message)) :: tr)
        end
  end.

(** The notifications of a trace, in order. *)
Definition emitted (tr : trace) : list (string * string) :=
  omap (fun e => match e with Emit k m => Some (k, m) | _ => None end) tr.

(** The identifiers [server.get] was called for, in order. *)
Definition fetched (tr : trace) : list string :=
  omap (fun e => match e with ServerGet k _ => Some k | _ => None end) tr.

(** The server has a message for [k] that the loop takes as present. *)
Definition present (srv : Server) (k : string) : option string :=
  match server_get srv k with
  | Returned (Some message) => if truthy message then Some message else None
  | _ => None
  end.

(** The identifiers the thread has in hand: the one it is working on
    and those left of the list it iterates over. *)
Definition in_hand (p : pc) : list string :=
  match p with
  | AtFor rest | AtExcept rest | AtErrSleep rest => rest
  | AtGet k rest | AtAdd k _ rest | AtLog k _ rest | AtEmit k _ rest => k :: rest
  | NotStarted | AtWhile | AtForInit | AtCycleSleep | Exited => []
  end.

(** The watch set and what the thread has in hand lie within [S]. *)
Definition within (S : gset string) (l : t) : Prop :=
  Forall (fun k => k ∈ S) (keyhashes l) ∧ Forall (fun k => k ∈ S) (in_hand (at_pc l)).

(** Every watch set the schedule installs lies within [S]. *)
Definition watches_within (S : gset string) (sched : list action) : bool :=
  forallb (fun a => match a with
                    | SetKeyhashes ks => forallb (fun k => bool_decide (k ∈ S)) ks
                    | _ => true
                    end) sched.

(** No stop signal in the schedule. *)
Definition no_stop (sched : list action) : bool :=
  forallb (fun a => match a with SignalStop => false | _ => true end) sched.

(** What the thread does: sleep, [get], log, emit. *)
Definition is_thread_event (e : event) : bool :=
  match e with
  | Sleep _ | ServerGet _ _ | PrintError _ | Emit _ _ => true
  | _ => false
  end.

End Listener.

(** ** Plugin *)

(** Modelled from the spec: the functions of [electrum.bitcoin] and
    [electrum.transaction] the plugin calls (neither module is among
    the sources).
    - [deserialize_xkey x] is [bitcoin.deserialize_xkey(x)[-1]], the raw
      key bytes of a serialized extended key; "malformed input
      (empty/invalid key material) ... must fail with an [InvalidKey]
      error", so it may raise;
    - [Hash] "applies a cryptographic hash function to the raw
      public-key bytes and returns the digest";
    - [encrypt_message payload K] is "encrypt(payload,
      recipientPublicKey) -> Envelope";
    - [decrypt_message k envelope] is [EC_KEY(k).decrypt_message], the
      spec's "decrypt(envelope, localPrivateKey) -> Result<payload,
      DecryptError>";
    - [x_to_xpub] extracts the candidate public key embedded in an
      input, if any. *)
Record Externals := {
  deserialize_xkey : string -> pyresult string;
  Hash : string -> string;
  encrypt_message : string -> string -> string;
  decrypt_message : string -> string -> pyresult string;
  x_to_xpub : string -> option string;
}.

(** The window and wallet methods [on_receive] calls: the answers of
    the user and of the key store. [password_dialog] answers [None]
    when cancelled. *)
Record Host := {
  password_dialog : Window -> string -> option string;
  question : Window -> string -> bool;
  get_master_private_key : Wallet -> string -> option string -> option string;
}.

(** A transaction as far as the plugin reads it: [tx.raw] and, per
    input, [txin['x_pubkeys']]. *)
Record Transaction := {
  raw : string;
  inputs : list (list string);
}.

Definition password_text : string :=
  "An encrypted transaction was retrieved from cosigning pool.
Please enter your password to decrypt it.".

Definition question_text : string :=
  "An encrypted transaction was retrieved from cosigning pool.
Do you want to open it now?".

Definition send_failed_text : string :=
  "Failed to send transaction to cosigning pool.".

Definition send_ok_text : string :=
  "Your transaction was sent to the cosigning pool.
Open your cosigner wallet to retrieve it.".

Module Plugin.

(** An entry of [self.keys]: [(key, _hash, window)]. *)
Definition mine : Type := string * string * Window.

(** An entry of [self.cosigner_list]: [(window, xpub, K, _hash)]. *)
Definition theirs : Type := Window * string * string * string.

Record t := {
  windows : list Window;              (* self.parent.windows *)
  listener : option Listener.t;
  keys : list mine;
  cosigner_list : list theirs;
}.

(** [Plugin.__init__]. *)
Definition init (ws : list Window) : t :=
  {| windows := ws; listener := None; keys := []; cosigner_list := [] |}.

(** The dict [wallet -> window] of the windows on a 2of2 or 2of3
    wallet, keyed by the identity of the wallet. *)
Definition available_wallets (p : t) : gmap nat Window :=
  foldl (fun result window =>
           if bool_decide (wallet_type (wallet window) ∈ ["2of2"; "2of3"])
           then <[wallet_id (wallet window) := window]> result
           else result)
        ∅ (windows p).

(** Lines 123-124: the key bytes in hex, [K], and the key hash. *)
Definition derive (E : Externals) (xpub : string) : pyresult (string * string) :=
  match deserialize_xkey E xpub with
  | Raised e => Raised e
  | Returned k =>
      let K := encode_hex k in
      Returned (K, encode_hex (Hash E K))
  end.

(** Body of the inner loop of [update], lines 123-128. *)
Definition add_key (E : Externals) (window : Window)
    (d : list mine * list theirs) (item : string * string)
  : list mine * list theirs * pyresult unit :=
  let '(key, xpub) := item in
  match derive E xpub with
  | Raised e => (d, Raised e)
  | Returned (K, _hash) =>
      if truthy_opt (master_private_keys (wallet window) !! key)
      then ((d.1 ++ [(key, _hash, window)], d.2), Returned tt)
      else ((d.1, d.2 ++ [(window, xpub, K, _hash)]), Returned tt)
  end.

Fixpoint for_keys (E : Externals) (window : Window)
    (items : list (string * string)) (d : list mine * list theirs)
  : list mine * list theirs * pyresult unit :=
  match items with
  | [] => (d, Returned tt)
  | item :: items' =>
      match add_key E window d item with
      | (d', Raised e) => (d', Raised e)
      | (d', Returned _) => for_keys E window items' d'
      end
  end.

Fixpoint for_wallets (E : Externals) (ws : list (nat * Window))
    (d : list mine * list theirs)
  : list mine * list theirs * pyresult unit :=
  match ws with
  | [] => (d, Returned tt)
  | (_, window) :: ws' =>
      match for_keys E window
              (map_to_list (master_public_keys (wallet window))) d with
      | (d', Raised e) => (d', Raised e)
      | (d', Returned _) => for_wallets E ws' d'
      end
  end.

(** Lines 109-118 of [update]: start a listener when there are wallets
    and none is running, stop the one running when there are none.
    [srvs] is the pool server as it is while [stop] waits. *)
Definition update_listener (srvs : nat -> Server) (p : t)
  : option Listener.t * trace :=
  if negb (Nat.eqb (size (available_wallets p)) 0) then
    match listener p with
    | None =>
        (Some (Listener.start Listener.init), [PrintError ["starting listener"]])
    | Some l => (Some l, [])
    end
  else
    match listener p with
    | Some l =>
        let '(_, tr_stop) := Listener.stop srvs l in
        (None, PrintError ["shutting down listener"] :: tr_stop)
    | None => (None, [])
    end.

(** [update]. An exception leaves the plugin as the statements
    executed so far have made it. *)
Definition update (E : Externals) (srvs : nat -> Server) (p : t)
  : t * trace * pyresult unit :=
  let '(lst, tr) := update_listener srvs p in
  match for_wallets E (map_to_list (available_wallets p)) ([], []) with
  | (d, Raised e) =>
      ({| windows := windows p; listener := lst;
          keys := d.1; cosigner_list := d.2 |}, tr, Raised e)
  | (d, Returned _) =>
      ({| windows := windows p;
          listener := (fun l => Listener.set_keyhashes l (map (fun t => t.1.2) d.1)) <$> lst;
          keys := d.1; cosigner_list := d.2 |}, tr, Returned tt)
  end.

Definition cosigner_can_sign (E : Externals) (tx : Transaction)
    (cosigner_xpub : string) : bool :=
  let xpub_set : gset string :=
    foldl (fun acc x_pubkeys =>
             foldl (fun acc x_pubkey =>
                      match x_to_xpub E x_pubkey with
                      | Some xpub => if truthy xpub then {[xpub]} ∪ acc else acc
                      | None => acc
                      end) acc x_pubkeys)
          ∅ (inputs tx) in
  bool_decide (cosigner_xpub ∈ xpub_set).

(** The loop of [do_send] over what is left of [self.cosigner_list]. *)
Fixpoint do_send_loop (E : Externals) (srv : Server) (tx : Transaction)
    (l : list theirs) : trace :=
  match l with
  | [] => []
  | (window, xpub, K, _hash) :: l' =>
      if negb (cosigner_can_sign E tx xpub) then do_send_loop E srv tx l'
      else
        let message := encrypt_message E (raw tx) K in
        match server_put srv _hash message with
        | Raised e =>
            [ServerPut _hash message (Raised e); PrintExc;
             ShowMessage window send_failed_text]
        | Returned u =>
            ServerPut _hash message (Returned u)
              :: ShowMessage window send_ok_text
              :: do_send_loop E srv tx l'
        end
  end.

Definition do_send (E : Externals) (srv : Server) (p : t) (tx : Transaction)
  : trace :=
  do_send_loop E srv tx (cosigner_list p).

(** The [try] block of [on_receive], lines 198-200. *)
Definition decrypt (E : Externals) (xprv message : string) : pyresult string :=
  match deserialize_xkey E xprv with
  | Raised e => Raised e
  | Returned key_bytes =>
      let k := encode_hex key_bytes in
      match decode_hex k with
      | None => Raised "TypeError"
      | Some k' => decrypt_message E k' message
      end
  end.

(** [self.listener.clear(keyhash)]; calling it on [None] raises. *)
Definition listener_clear (srv : Server) (p : t) (keyhash : string)
  : t * trace * pyresult unit :=
  match listener p with
  | None => (p, [], Raised "AttributeError")
  | Some l =>
      let '(l', tr, r) := Listener.clear srv l keyhash in
      ({| windows := windows p; listener := Some l';
          keys := keys p; cosigner_list := cosigner_list p |}, tr, r)
  end.

(** Lines 185-192: the prompt. [None] when the user gives no password
    or refuses; otherwise the password to open the key with. *)
Definition ask (H : Host) (window : Window) : trace * option (option string) :=
  if use_encryption (wallet window) then
    let password := password_dialog H window password_text in
    ([PasswordDialog window password_text],
     if truthy_opt password then Some password else None)
  else
    ([Question window question_text],
     if question H window question_text then Some None else None).

(** Lines 184-196: the private key to decrypt with, or [None] when the
    handler returns before decrypting. *)
Definition open_key (H : Host) (window : Window) (key : string)
  : trace * option string :=
  match ask H window with
  | (tr, None) => (tr, None)
  | (tr, Some password) =>
      match get_master_private_key H (wallet window) key password with
      | None => (tr, None)
      | Some xprv => (tr, if truthy xprv then Some xprv else None)
      end
  end.

Definition on_receive (E : Externals) (H : Host) (srv : Server) (p : t)
    (keyhash message : string) : t * trace * pyresult unit :=
  let tr0 := [PrintError ["signal arrived for"; keyhash]] in
  match List.find (fun e : mine => String.eqb e.1.2 keyhash) (keys p) with
  | None => (p, tr0 ++ [PrintError ["keyhash not found"]], Returned tt)
  | Some (key, _, window) =>
      match open_key H window key with
      | (tr1, None) => (p, tr0 ++ tr1, Returned tt)
      | (tr1, Some xprv) =>
          match decrypt E xprv message with
          | Raised e =>
              (p, tr0 ++ tr1 ++ [PrintExc; ShowMessage window e], Returned tt)
          | Returned payload =>
              match listener_clear srv p keyhash with
              | (p', tr2, Raised e) => (p', tr0 ++ tr1 ++ tr2, Raised e)
              | (p', tr2, Returned _) =>
                  (p', tr0 ++ tr1 ++ tr2 ++ [ShowTransaction payload window],
                   Returned tt)
              end
          end
      end
  end.

(** Every configured public key of every available wallet is a
    well-formed serialized key. *)
Definition deserializes (E : Externals) (x : string) : bool :=
  match deserialize_xkey E x with
  | Returned _ => true
  | Raised _ => false
  end.

Definition well_formed (E : Externals) (p : t) : bool :=
  forallb (fun '(_, window) =>
             forallb (fun '(_, xpub) => deserializes E xpub)
                     (map_to_list (master_public_keys (wallet window))))
          (map_to_list (available_wallets p)).

(** What one configured key contributes to [self.keys]. *)
Definition mine_from (E : Externals) (window : Window) (e : mine) (item : string * string) : Prop :=
  ∃ K, derive E item.2 = Returned (K, e.1.2)
       ∧ truthy_opt (master_private_keys (wallet window) !! item.1) = true
       ∧ e = (item.1, e.1.2, window).

(** What one configured key contributes to [self.cosigner_list]. *)
Definition theirs_from (E : Externals) (window : Window) (e : theirs) (item : string * string) : Prop :=
  derive E item.2 = Returned (e.1.2, e.2)
  ∧ truthy_opt (master_private_keys (wallet window) !! item.1) = false
  ∧ e = (window, item.2, e.1.2, e.2).

(** The events of a recipient whose [put] goes through: nothing when
    the recipient cannot sign. *)
Definition sent (E : Externals) (tx : Transaction) (t : theirs) : trace :=
  if cosigner_can_sign E tx t.1.1.2 then
    [ServerPut t.2 (encrypt_message E (raw tx) t.1.2) (Returned tt);
     ShowMessage t.1.1.1 send_ok_text]
  else [].

(** If the recipient can sign, the [put] for it goes through. *)
Definition put_ok (E : Externals) (srv : Server) (tx : Transaction)
    (t : theirs) : Prop :=
  cosigner_can_sign E tx t.1.1.2 = true ->
  server_put srv t.2 (encrypt_message E (raw tx) t.1.2) = Returned tt.

(** A call to [server.delete], a hand-over to the transaction viewer. *)
Definition is_delete (e : event) : bool :=
  match e with
  | ServerDelete _ _ => true
  | _ => false
  end.

Definition is_show_transaction (e : event) : bool :=
  match e with
  | ShowTransaction _ _ => true
  | _ => false
  end.

Definition is_put (k : string) (e : event) : bool :=
  match e with
  | ServerPut k' _ _ => String.eqb k k'
  | _ => false
  end.

(** [is_available]. *)
Definition is_available (p : t) : bool :=
  negb (Nat.eqb (size (available_wallets p)) 0).

(** The loop of [transaction_dialog_update], lines 144-149, over what is
    left of [self.cosigner_list]: [true] when the button is shown,
    [false] when the [else] of the [for] hides it. [d_wallet] is
    [d.wallet]; wallets are compared by identity. *)
Fixpoint offer_loop (E : Externals) (d_wallet : Wallet) (tx : Transaction)
    (l : list theirs) : bool :=
  match l with
  | [] => false
  | (window, xpub, _, _) :: l' =>
      if Nat.eqb (wallet_id (wallet window)) (wallet_id d_wallet)
         && cosigner_can_sign E tx xpub
      then true
      else offer_loop E d_wallet tx l'
  end.

(** [transaction_dialog_update]: whether the "Send to cosigner" button
    of the dialog is shown afterwards. [is_complete] is
    [d.tx.is_complete()], [can_sign] is [d.wallet.can_sign(d.tx)]. *)
Definition transaction_dialog_update (E : Externals) (p : t)
    (d_wallet : Wallet) (tx : Transaction) (is_complete can_sign : bool) : bool :=
  if is_complete || can_sign then false
  else offer_loop E d_wallet tx (cosigner_list p).

(** [on_new_window] and [on_close_window]. *)
Definition on_new_window (E : Externals) (srvs : nat -> Server) (p : t)
  : t * trace * pyresult unit := update E srvs p.

Definition on_close_window (E : Externals) (srvs : nat -> Server) (p : t)
  : t * trace * pyresult unit := update E srvs p.

(** The host application opens or closes windows: [self.parent.windows]
    changes under the plugin. *)
Definition with_windows (p : t) (ws : list Window) : t :=
  {| windows := ws; listener := listener p;
     keys := keys p; cosigner_list := cosigner_list p |}.

Definition is_server_put (e : event) : bool :=
  match e with
  | ServerPut _ _ _ => true
  | _ => false
  end.

(** An event [do_send] produces: a [put], the traceback, a message on a
    window. *)
Definition is_send_event (e : event) : bool :=
  match e with
  | ServerPut _ _ _ | PrintExc | ShowMessage _ _ => true
  | _ => false
  end.

Definition eligible (w : Window) : Prop :=
  wallet_type (wallet w) ∈ ["2of2"; "2of3"].

End Plugin.

(** ** A small concrete setting

    Two co-signers, Alice and Bob, share a 2of2 wallet; each window
    below is Alice's view of one such wallet. The cryptography is a toy
    stand-in with the interface of the real one. *)

Module Fixture.

(** Drops the four-character prefix ("xpub", "xprv"); an extended key
    with nothing after it is rejected. *)
Definition toy_deserialize (x : string) : pyresult string :=
  match x with
  | String _ (String _ (String _ (String _ (String c s)))) => Returned (String c s)
  | _ => Raised "InvalidKey"
  end.

(** The public key of the private key [k] is [k] itself; an envelope
    is the recipient's key in hex, a colon, and the payload. *)
Fixpoint strip_prefix (pre s : string) : option string :=
  match pre, s with
  | EmptyString, _ => Some s
  | String a pre', String b s' =>
      if Ascii.eqb a b then strip_prefix pre' s' else None
  | String _ _, EmptyString => None
  end.

Definition toy_decrypt (k envelope : string) : pyresult string :=
  match strip_prefix (String.append (encode_hex k) ":") envelope with
  | Some payload => Returned payload
  | None => Raised "DecryptError"
  end.

Definition externals : Externals := {|
  deserialize_xkey := toy_deserialize;
  Hash := fun s => String.append "H" s;
  encrypt_message := fun payload K => String.append K (String.append ":" payload);
  decrypt_message := toy_decrypt;
  x_to_xpub := fun x => Some x;
|}.

Definition server_up (store : gmap string string) : Server := {|
  server_get := fun k => Returned (store !! k);
  server_put := fun _ _ => Returned tt;
  server_delete := fun _ => Returned tt;
|}.

Definition server_down : Server := {|
  server_get := fun _ => Raised "unreachable";
  server_put := fun _ _ => Raised "unreachable";
  server_delete := fun _ => Raised "unreachable";
|}.

(** The pool takes a [put] for the key hash [ok] and fails otherwise. *)
Definition server_flaky (ok : string) : Server := {|
  server_get := fun _ => Raised "unreachable";
  server_put := fun k _ => if String.eqb k ok then Returned tt else Raised "unreachable";
  server_delete := fun _ => Raised "unreachable";
|}.

(** Alice holds the private key of slot "x1/"; "x2/" is Bob's and
    "x3/" is Carol's. *)
Definition wallet_a : Wallet := {|
  wallet_id := 1;
  wallet_type := "2of3";
  use_encryption := false;
  master_public_keys := {[ "x1/" := "xpubA"; "x2/" := "xpubB"; "x3/" := "xpubC" ]};
  master_private_keys := {[ "x1/" := "xprvA" ]};
|}.

Definition window_a : Window := {| window_id := 1; wallet := wallet_a |}.

(** A single-signature wallet: no context of the plugin. *)
Definition wallet_s : Wallet := {|
  wallet_id := 2;
  wallet_type := "standard";
  use_encryption := false;
  master_public_keys := {[ "x/" := "xpubS" ]};
  master_private_keys := {[ "x/" := "xprvS" ]};
|}.

Definition window_s : Window := {| window_id := 2; wallet := wallet_s |}.

Definition host_yes : Host := {|
  password_dialog := fun _ _ => Some "secret";
  question := fun _ _ => true;
  get_master_private_key := fun w key _ => master_private_keys w !! key;
|}.

Definition host_no : Host := {|
  password_dialog := fun _ _ => None;
  question := fun _ _ => false;
  get_master_private_key := fun w key _ => master_private_keys w !! key;
|}.

(** A transaction Bob and Carol can both sign. *)
Definition tx_bc : Transaction := {| raw := "rawtx"; inputs := [["xpubB"; "xpubC"]] |}.

(** The key hashes of Alice, Bob and Carol. *)
Definition hash_a : string := "483431".
Definition hash_b : string := "483432".
Definition hash_c : string := "483433".

(** Alice's plugin once her two windows are open. *)
Definition plugin_a : Plugin.t :=
  (Plugin.update externals (fun _ => server_down)
     (Plugin.init [window_a; window_s])).1.1.

(** The listener watching Alice's key hash. *)
Definition watching_a : Listener.t :=
  Listener.set_keyhashes (Listener.start Listener.init) [hash_a].

(** [n] statements of the thread against the same server. *)
Definition ticks (n : nat) (srv : Server) : list Listener.action :=
  replicate n (Listener.Tick srv).

(** The pool holding one message for Alice. *)
Definition pool_a : gmap string string := {[ hash_a := "41:rawtx" ]}.

(** Alice's listener after the message in [pool_a] has been notified,
    and her plugin then. *)
Definition notified_a : Listener.t :=
  (Listener.run_schedule (ticks 8 (server_up pool_a)) watching_a).1.

Definition plugin_notified : Plugin.t :=
  {| Plugin.windows := Plugin.windows plugin_a;
     Plugin.listener := Some notified_a;
     Plugin.keys := Plugin.keys plugin_a;
     Plugin.cosigner_list := Plugin.cosigner_list plugin_a |}.

(** The pool answers nothing for anybody. *)
Definition pool_empty : gmap string string := ∅.



End Fixture.

(** * Properties *)

(** ** Hex encoding *)

Lemma hex_value_digit_hi (c : ascii) :
  hex_value (hex_digit (N_of_ascii c / 16)) = Some (N_of_ascii c / 16)%N.
Proof. destruct c as [[] [] [] [] [] [] [] []]; vm_compute; reflexivity. Qed.

Lemma hex_value_digit_lo (c : ascii) :
  hex_value (hex_digit (N_of_ascii c mod 16)) = Some (N_of_ascii c mod 16)%N.
Proof. destruct c as [[] [] [] [] [] [] [] []]; vm_compute; reflexivity. Qed.

Lemma ascii_of_hex_pair (c : ascii) :
  ascii_of_N (16 * (N_of_ascii c / 16) + N_of_ascii c mod 16) = c.
Proof.
  rewrite <- N.div_mod by discriminate. apply ascii_N_embedding.
Qed.

(** Decoding undoes encoding: [s.encode('hex').decode('hex') == s]. *)
Lemma decode_encode_hex (s : string) : decode_hex (encode_hex s) = Some s.
Proof.
  induction s as [|c s IH]; [reflexivity|].
  cbn [encode_hex decode_hex].
  rewrite hex_value_digit_hi, hex_value_digit_lo, IH, ascii_of_hex_pair.
  reflexivity.
Qed.

Lemma encode_hex_length (s : string) :
  String.length (encode_hex s) = 2 * String.length s.
Proof. induction s as [|c s IH]; cbn [encode_hex String.length]; lia. Qed.

(** ** Traces *)

Lemma count_app (p : event -> bool) (t1 t2 : trace) :
  count p (t1 ++ t2) = count p t1 + count p t2.
Proof. unfold count. rewrite List.filter_app, length_app. reflexivity. Qed.

(** ** The listener *)

Module ListenerFacts.
Import Listener.

(** Case analysis on one statement of the thread. *)
Ltac step_cases l :=
  let r := fresh "r" in let rc := fresh "rc" in
  let ks := fresh "ks" in let p := fresh "p" in
  destruct l as [r rc ks p]; destruct p as
    [ | | | [|? ?] | ? ? | ? | ? | ? ? ? | ? ? ? | ? ? ? | | ];
  cbn [run_step at_pc running received keyhashes with_pc] in *;
  repeat match goal with
    | |- context [if ?b then _ else _] => destruct b eqn:?
    | |- context [match server_get ?s ?k with _ => _ end] =>
        destruct (server_get s k) as [[?|]|?] eqn:?
    | |- context [match ?ks with [] => _ | _ :: _ => _ end] => destruct ks
    end;
  cbn [fst snd at_pc running received keyhashes with_pc] in *.

Ltac eqb_cases :=
  repeat match goal with
    | H : context [String.eqb ?a ?b] |- _ => destruct (String.eqb_spec a b); subst
    | |- context [String.eqb ?a ?b] => destruct (String.eqb_spec a b); subst
    end.

(** Membership in [received] after an [add] or a [remove]. *)
Ltac sets :=
  repeat match goal with
    | H : bool_decide _ = true |- _ => apply bool_decide_eq_true in H
    | H : bool_decide _ = false |- _ => apply bool_decide_eq_false in H
    end;
  rewrite ?elem_of_union, ?elem_of_difference, ?elem_of_singleton in *;
  solve [intuition (try congruence)].

Lemma run_step_running srv l : running (run_step srv l).1 = running l.
Proof. step_cases l; reflexivity. Qed.

Lemma run_step_keyhashes srv l : keyhashes (run_step srv l).1 = keyhashes l.
Proof. step_cases l; reflexivity. Qed.

Lemma run_step_received_mono srv l : received l ⊆ received (run_step srv l).1.
Proof. step_cases l; try done; intros x Hx; sets. Qed.

(** The thread emits only at line 76. *)
Lemma run_step_emit srv l k m :
  Emit k m ∈ (run_step srv l).2 -> ∃ rest, at_pc l = AtEmit k m rest.
Proof.
  step_cases l; intros Hin;
    repeat (apply elem_of_cons in Hin as [Hin|Hin]; [try discriminate|]);
    try (by apply elem_of_nil in Hin).
  inversion Hin; subst. eauto.
Qed.

(** A stopped thread never moves nor speaks again. *)
Lemma run_step_halted srv l :
  halted (at_pc l) = true -> run_step srv l = (l, []).
Proof. destruct l as [r rc ks []]; cbn; congruence. Qed.

Lemma act_received_keep a l k :
  is_clear_of k a = false -> k ∈ received l -> k ∈ received (act a l).1.
Proof.
  destruct a as [srv|ks|srv k'|]; cbn [act is_clear_of]; intros Hc Hk.
  - by apply run_step_received_mono.
  - done.
  - unfold clear. destruct (server_delete srv k'); [|done].
    case_bool_decide; [|done]. cbn. eqb_cases; [done|sets].
  - done.
Qed.

(** While no message for [k] has been taken, a statement or a call
    either leaves it so, silently, or is the [server.get(k)] that
    returns a message. *)
Lemma act_fresh a l k :
  is_clear_of k a = false -> fresh k l ->
  (fresh k (act a l).1 ∧ count (is_emit k) (act a l).2 = 0
     ∧ count (is_present_get k) (act a l).2 = 0)
  ∨ (secured k (act a l).1 ∧ owed k (at_pc (act a l).1) = 1
     ∧ count (is_emit k) (act a l).2 = 0
     ∧ count (is_present_get k) (act a l).2 = 1).
Proof.
  unfold fresh, secured, owed.
  destruct a as [srv|ks|srv k'|]; cbn [act is_clear_of]; intros Hc [Hk Hp].
  - step_cases l; cbn [pending polling adding count List.filter is_emit
      is_present_get truthy_opt length andb] in *;
      eqb_cases; try discriminate;
      cbn [pending polling adding count List.filter is_emit is_present_get
        truthy_opt length andb fst snd] in *;
      repeat match goal with
        | H : truthy _ = _ |- _ => rewrite H
        end;
      cbn [count List.filter length andb];
      first [ left; split_and!; [sets|done..]
            | right; split_and!; solve [auto | sets] ].
  - left. cbn. auto.
  - unfold clear. destruct (server_delete srv k') as [[]|e];
      [case_bool_decide|]; cbn; eqb_cases; try discriminate;
      left; split_and!; try done; sets.
  - left. cbn. auto.
Qed.

(** Once a message for [k] has been taken, and until [clear(k)], the
    thread never fetches for [k] again, and emits for [k] only the
    notification under way. *)
Lemma act_secured a l k :
  is_clear_of k a = false -> secured k l ->
  secured k (act a l).1
  ∧ count (is_present_get k) (act a l).2 = 0
  ∧ count (is_emit k) (act a l).2 + owed k (at_pc (act a l).1) = owed k (at_pc l)
  ∧ (k ∈ received l -> k ∈ received (act a l).1).
Proof.
  unfold secured, owed.
  destruct a as [srv|ks|srv k'|]; cbn [act is_clear_of]; intros Hc [Hk Hp].
  - step_cases l; cbn [pending polling adding count List.filter is_emit
      is_present_get truthy_opt length andb] in *;
      eqb_cases; try discriminate;
      cbn [pending polling adding count List.filter is_emit is_present_get
        truthy_opt length andb fst snd] in *;
      repeat match goal with
        | H : bool_decide _ = true |- _ => apply bool_decide_eq_true in H
        | H : bool_decide _ = false |- _ => apply bool_decide_eq_false in H
        end;
      try (destruct Hk as [Hk'|Hk']; [|discriminate]);
      try (exfalso; sets);
      split_and!; try done; try sets.
  - cbn. auto.
  - unfold clear. destruct (server_delete srv k') as [[]|e];
      [case_bool_decide|]; cbn; eqb_cases; try discriminate;
      split_and!; try done; sets.
  - cbn. auto.
Qed.

Lemma run_schedule_cons a sched l :
  run_schedule (a :: sched) l
  = ((run_schedule sched (act a l).1).1,
     (act a l).2 ++ (run_schedule sched (act a l).1).2).
Proof.
  cbn [run_schedule]. destruct (act a l) as [l1 t1]. cbn [fst snd].
  destruct (run_schedule sched l1) as [l2 t2]. reflexivity.
Qed.

Lemma sched_secured sched l k :
  no_clear k sched = true -> secured k l ->
  secured k (run_schedule sched l).1
  ∧ count (is_present_get k) (run_schedule sched l).2 = 0
  ∧ count (is_emit k) (run_schedule sched l).2
      + owed k (at_pc (run_schedule sched l).1) = owed k (at_pc l)
  ∧ (k ∈ received l -> k ∈ received (run_schedule sched l).1).
Proof.
  revert l. induction sched as [|a sched IH]; intros l Hnc Hs.
  - cbn. auto.
  - cbn [no_clear forallb] in Hnc. apply andb_true_iff in Hnc as [Ha Hnc].
    apply negb_true_iff in Ha.
    destruct (act_secured a l k Ha Hs) as (Hs1 & Hg1 & He1 & Hr1).
    destruct (IH _ Hnc Hs1) as (Hs2 & Hg2 & He2 & Hr2).
    rewrite run_schedule_cons. cbn [fst snd]. rewrite !count_app.
    split_and!; [done|lia|lia|auto].
Qed.

Lemma sched_fresh sched l k :
  no_clear k sched = true -> fresh k l ->
  (fresh k (run_schedule sched l).1
     ∧ count (is_emit k) (run_schedule sched l).2 = 0
     ∧ count (is_present_get k) (run_schedule sched l).2 = 0)
  ∨ (secured k (run_schedule sched l).1
     ∧ count (is_present_get k) (run_schedule sched l).2 = 1
     ∧ count (is_emit k) (run_schedule sched l).2
         + owed k (at_pc (run_schedule sched l).1) = 1).
Proof.
  revert l. induction sched as [|a sched IH]; intros l Hnc Hf.
  - left. cbn. auto.
  - cbn [no_clear forallb] in Hnc. apply andb_true_iff in Hnc as [Ha Hnc].
    apply negb_true_iff in Ha.
    rewrite run_schedule_cons. cbn [fst snd]. rewrite !count_app.
    destruct (act_fresh a l k Ha Hf) as [(Hf1 & He1 & Hg1)|(Hs1 & Ho1 & He1 & Hg1)].
    + destruct (IH _ Hnc Hf1) as [(Hf2 & He2 & Hg2)|(Hs2 & Hg2 & He2)].
      * left. split_and!; [done|lia|lia].
      * right. split_and!; [done|lia|lia].
    + destruct (sched_secured sched _ k Hnc Hs1) as (Hs2 & Hg2 & He2 & _).
      right. split_and!; [done|lia|lia].
Qed.

Lemma fresh_start k : fresh k (start init).
Proof. split; [apply not_elem_of_empty|reflexivity]. Qed.

(** From a state where no message for [k] is taken, and as long as
    [clear(k)] is not called, a notification for [k] is under way only
    between lines 74 and 76, and past line 74 [k] is in [received]. *)
Lemma sched_pending_received sched l k :
  no_clear k sched = true -> fresh k l ->
  pending k (at_pc (run_schedule sched l).1) = true ->
  adding k (at_pc (run_schedule sched l).1) = false ->
  k ∈ received (run_schedule sched l).1.
Proof.
  intros Hnc Hf Hp Ha.
  destruct (sched_fresh sched _ k Hnc Hf)
    as [([_ Hf'] & _)|([[Hr|Hr] _] & _)]; congruence.
Qed.

Lemma sched_received_keep sched l k :
  no_clear k sched = true -> k ∈ received l ->
  k ∈ received (run_schedule sched l).1.
Proof.
  revert l. induction sched as [|a sched IH]; intros l Hnc Hk; [done|].
  cbn [no_clear forallb] in Hnc. apply andb_true_iff in Hnc as [Ha Hnc].
  apply negb_true_iff in Ha. rewrite run_schedule_cons. cbn [fst].
  apply IH; [done|]. by apply act_received_keep.
Qed.

Lemma delivered_secured k l : delivered k l -> secured k l.
Proof. intros (? & ? & ?). split; auto. Qed.

Lemma sched_delivered sched l k :
  no_clear k sched = true -> delivered k l ->
  delivered k (run_schedule sched l).1
  ∧ count (is_emit k) (run_schedule sched l).2 = 0.
Proof.
  intros Hnc Hd. pose proof Hd as (Hr & Hp & Hq).
  destruct (sched_secured sched l k Hnc (delivered_secured _ _ Hd))
    as ([_ Hq'] & _ & He & Hr').
  unfold owed in He. rewrite Hp in He.
  destruct (pending k (at_pc (run_schedule sched l).1)) eqn:Hp'; [lia|].
  split; [|lia]. split_and!; auto.
Qed.

(** In every execution the thread is about to fetch for [k] only while
    [k] is not in [received]: nothing but the thread adds to the set. *)
Lemma act_polling a l k :
  (polling k (at_pc l) = true -> k ∉ received l) ->
  polling k (at_pc (act a l).1) = true -> k ∉ received (act a l).1.
Proof.
  destruct a as [srv|ks|srv k'|]; cbn [act].
  - step_cases l; cbn [polling] in *; try discriminate; eqb_cases;
      try discriminate; auto; intros; sets.
  - auto.
  - unfold clear. destruct (server_delete srv k') as [[]|e];
      [case_bool_decide|]; cbn; auto.
    intros Hi Hp Hr. apply elem_of_difference in Hr as [Hr _]. by apply Hi.
  - auto.
Qed.

Lemma sched_polling sched k :
  let l := (run_schedule sched (start init)).1 in
  polling k (at_pc l) = true -> k ∉ received l.
Proof.
  cbn zeta.
  assert (Hgen : ∀ l, (polling k (at_pc l) = true -> k ∉ received l) ->
            polling k (at_pc (run_schedule sched l).1) = true ->
            k ∉ received (run_schedule sched l).1).
  { induction sched as [|a sched IH]; intros l Hl; [done|].
    rewrite run_schedule_cons. cbn [fst]. apply IH. by apply act_polling. }
  apply Hgen. discriminate.
Qed.

(** [clear] does one thing to the world: the remote delete. *)
Lemma clear_trace srv l k :
  (clear srv l k).1.2 = [ServerDelete k (server_delete srv k)].
Proof.
  unfold clear. destruct (server_delete srv k) as [[]|e];
    [case_bool_decide|]; reflexivity.
Qed.

(** *** Stopping *)

Lemma signal_stop_stopped l : running l = false -> signal_stop l = l.
Proof. destruct l; cbn; intros ->; reflexivity. Qed.

(** With the flag off every statement brings the thread closer to the
    exit. *)
Lemma run_step_steps_left srv l :
  running l = false -> halted (at_pc l) = false ->
  (steps_left (run_step srv l).1 < steps_left l)%nat.
Proof.
  intros Hr Hh. unfold steps_left.
  step_cases l; cbn [length] in *; try discriminate; lia.
Qed.

Lemma drain_running srvs n l : running (drain srvs n l).1 = running l.
Proof.
  revert l. induction n as [|n IH]; intros l; [done|].
  cbn [drain]. destruct (run_step (srvs n) l) as [l1 t1] eqn:Hs.
  specialize (IH l1). destruct (drain srvs n l1) as [l2 t2]. cbn [fst] in *.
  rewrite IH. change l1 with (l1, t1).1. rewrite <- Hs. apply run_step_running.
Qed.

Lemma drain_halts srvs n l :
  running l = false -> (steps_left l ≤ n)%nat ->
  halted (at_pc (drain srvs n l).1) = true.
Proof.
  revert l. induction n as [|n IH]; intros l Hr Hn.
  - unfold steps_left in Hn. cbn. destruct (at_pc l); cbn in *; try lia; reflexivity.
  - cbn [drain]. destruct (halted (at_pc l)) eqn:Hh.
    + rewrite (run_step_halted _ _ Hh).
      specialize (IH l Hr). destruct (drain srvs n l) as [l2 t2]. cbn [fst] in *.
      apply IH. unfold steps_left in *.
      destruct (at_pc l); cbn in *; try discriminate; lia.
    + pose proof (run_step_steps_left (srvs n) l Hr Hh) as Hlt.
      pose proof (run_step_running (srvs n) l) as Hrun.
      destruct (run_step (srvs n) l) as [l1 t1]. cbn [fst] in *.
      specialize (IH l1). destruct (drain srvs n l1) as [l2 t2]. cbn [fst] in *.
      apply IH; [congruence|lia].
Qed.

(** [stop] returns, and the thread has then left its loop. *)
Lemma stop_halted srvs l : halted (at_pc (stop srvs l).1) = true.
Proof. unfold stop. apply drain_halts; [reflexivity|done]. Qed.

Lemma stop_running srvs l : running (stop srvs l).1 = false.
Proof. unfold stop. by rewrite drain_running. Qed.

Lemma act_halted a l :
  halted (at_pc l) = true ->
  halted (at_pc (act a l).1) = true ∧ count is_emit_any (act a l).2 = 0.
Proof.
  intros Hh. destruct a as [srv|ks|srv k'|]; cbn [act].
  - by rewrite (run_step_halted _ _ Hh).
  - done.
  - unfold clear. destruct (server_delete srv k') as [[]|e];
      [case_bool_decide|]; done.
  - done.
Qed.

(** Whatever is called on a listener whose thread has left the loop,
    no notification is emitted. *)
Lemma sched_halted sched l :
  halted (at_pc l) = true ->
  halted (at_pc (run_schedule sched l).1) = true
  ∧ count is_emit_any (run_schedule sched l).2 = 0.
Proof.
  revert l. induction sched as [|a sched IH]; intros l Hh; [done|].
  rewrite run_schedule_cons. cbn [fst snd]. rewrite count_app.
  destruct (act_halted a l Hh) as [Hh1 He1].
  destruct (IH _ Hh1) as [Hh2 He2]. split; [done|lia].
Qed.

End ListenerFacts.

(** ** The plugin *)

Module PluginFacts.
Import Plugin.

Section Directory.
Context (E : Externals).

Lemma add_key_spec window d item d' u :
  add_key E window d item = (d', Returned u) ->
  (∀ e, e ∈ d'.1 ↔ e ∈ d.1 ∨ mine_from E window e item)
  ∧ (∀ e, e ∈ d'.2 ↔ e ∈ d.2 ∨ theirs_from E window e item).
Proof.
  unfold add_key, mine_from, theirs_from. destruct item as [key xpub].
  cbn [fst snd].
  destruct (derive E xpub) as [[K h]|err] eqn:Hd; [|discriminate].
  destruct (truthy_opt (master_private_keys (wallet window) !! key)) eqn:Hpriv;
    intros [= <-]; cbn [fst snd]; split; intros e.
  - rewrite elem_of_app, list_elem_of_singleton. split; intros [?|Hn]; auto.
    + subst e. right. exists K. auto.
    + destruct Hn as (K' & [= -> Hh] & _ & ->). right. cbn in *. congruence.
  - split; [auto|]. intros [?|(_ & ? & _)]; [done|discriminate].
  - split; [auto|]. intros [?|(? & _ & ? & _)]; [done|discriminate].
  - rewrite elem_of_app, list_elem_of_singleton. split; intros [?|Hn]; auto.
    + subst e. right. auto.
    + destruct Hn as ([= HK Hh] & _ & ->). right. cbn in *. congruence.
Qed.

Lemma for_keys_spec window items d d' u :
  for_keys E window items d = (d', Returned u) ->
  (∀ e, e ∈ d'.1 ↔ e ∈ d.1 ∨ ∃ item, item ∈ items ∧ mine_from E window e item)
  ∧ (∀ e, e ∈ d'.2 ↔ e ∈ d.2 ∨ ∃ item, item ∈ items ∧ theirs_from E window e item).
Proof.
  revert d. induction items as [|item items IH]; intros d.
  - intros [= <-]. split; intros e; split; auto;
      intros [?|(? & Hin & _)]; auto; by apply elem_of_nil in Hin.
  - cbn [for_keys]. destruct (add_key E window d item) as [d1 [u1|err]] eqn:Hadd;
      [|discriminate].
    intros Hrest. destruct (add_key_spec _ _ _ _ _ Hadd) as [Hm1 Ht1].
    destruct (IH _ Hrest) as [Hm2 Ht2].
    split; intros e; [rewrite Hm2, Hm1|rewrite Ht2, Ht1];
      setoid_rewrite elem_of_cons; naive_solver.
Qed.

Lemma for_keys_returns window items d :
  forallb (fun '(_, xpub) => deserializes E xpub) items = true ->
  ∃ d', for_keys E window items d = (d', Returned tt).
Proof.
  revert d. induction items as [|[key xpub] items IH]; intros d Hwf.
  - eauto.
  - cbn [forallb] in Hwf. apply andb_true_iff in Hwf as [Hx Hwf].
    cbn [for_keys add_key]. unfold derive, deserializes in *.
    destruct (deserialize_xkey E xpub); [|discriminate].
    destruct (truthy_opt _); apply IH, Hwf.
Qed.

Lemma for_wallets_spec ws d d' u :
  for_wallets E ws d = (d', Returned u) ->
  (∀ e, e ∈ d'.1 ↔ e ∈ d.1 ∨ ∃ wid window item,
        (wid, window) ∈ ws
        ∧ item ∈ map_to_list (master_public_keys (wallet window))
        ∧ mine_from E window e item)
  ∧ (∀ e, e ∈ d'.2 ↔ e ∈ d.2 ∨ ∃ wid window item,
        (wid, window) ∈ ws
        ∧ item ∈ map_to_list (master_public_keys (wallet window))
        ∧ theirs_from E window e item).
Proof.
  revert d. induction ws as [|[wid window] ws IH]; intros d.
  - intros [= <-]. split; intros e; split; auto;
      intros [?|(? & ? & ? & Hin & _)]; auto; by apply elem_of_nil in Hin.
  - cbn [for_wallets].
    destruct (for_keys E window _ d) as [d1 [u1|err]] eqn:Hk; [|discriminate].
    intros Hrest. destruct (for_keys_spec _ _ _ _ _ Hk) as [Hm1 Ht1].
    destruct (IH _ Hrest) as [Hm2 Ht2].
    split; intros e; [rewrite Hm2, Hm1|rewrite Ht2, Ht1];
      setoid_rewrite elem_of_cons; naive_solver.
Qed.

Lemma for_wallets_returns ws d :
  forallb (fun '(_, window) =>
             forallb (fun '(_, xpub) => deserializes E xpub)
                     (map_to_list (master_public_keys (wallet window)))) ws = true ->
  ∃ d', for_wallets E ws d = (d', Returned tt).
Proof.
  revert d. induction ws as [|[wid window] ws IH]; intros d Hwf.
  - eauto.
  - cbn [forallb] in Hwf. apply andb_true_iff in Hwf as [Hx Hwf].
    cbn [for_wallets].
    destruct (for_keys_returns window _ d Hx) as [d1 ->]. apply IH, Hwf.
Qed.

End Directory.

Section Update.
Context (E : Externals) (srvs : nat -> Server).

(** [update] reads [self.parent.windows] and [self.listener] only. *)
Lemma update_reads p1 p2 :
  windows p1 = windows p2 -> listener p1 = listener p2 ->
  update E srvs p1 = update E srvs p2.
Proof.
  intros Hw Hl. unfold update, update_listener, available_wallets.
  by rewrite Hw, Hl.
Qed.

Lemma update_directory p :
  well_formed E p = true ->
  ∃ p' tr, update E srvs p = (p', tr, Returned tt)
    ∧ (∀ e, e ∈ keys p' ↔ ∃ wid window key xpub,
          available_wallets p !! wid = Some window
          ∧ master_public_keys (wallet window) !! key = Some xpub
          ∧ mine_from E window e (key, xpub))
    ∧ (∀ e, e ∈ cosigner_list p' ↔ ∃ wid window key xpub,
          available_wallets p !! wid = Some window
          ∧ master_public_keys (wallet window) !! key = Some xpub
          ∧ theirs_from E window e (key, xpub)).
Proof.
  intros Hwf. unfold update.
  destruct (update_listener srvs p) as [lst tr].
  destruct (for_wallets_returns E _ ([], []) Hwf) as [d Hd]. rewrite Hd.
  destruct (for_wallets_spec E _ _ _ _ Hd) as [Hm Ht].
  eexists _, _. split; [reflexivity|]. cbn [keys cosigner_list].
  split; intros e; [rewrite Hm|rewrite Ht]; cbn [fst snd]; split.
  - intros [Hn|(wid & window & [key xpub] & Hw & Hi & Hfrom)];
      [by apply elem_of_nil in Hn|].
    apply elem_of_map_to_list in Hw, Hi. eauto 10.
  - intros (wid & window & key & xpub & Hw & Hi & Hfrom). right.
    exists wid, window, (key, xpub). by rewrite !elem_of_map_to_list.
  - intros [Hn|(wid & window & [key xpub] & Hw & Hi & Hfrom)];
      [by apply elem_of_nil in Hn|].
    apply elem_of_map_to_list in Hw, Hi. eauto 10.
  - intros (wid & window & key & xpub & Hw & Hi & Hfrom). right.
    exists wid, window, (key, xpub). by rewrite !elem_of_map_to_list.
Qed.

Lemma update_no_wallets p :
  size (available_wallets p) = 0 ->
  ∃ tr, update E srvs p
        = ({| windows := windows p; listener := None;
              keys := []; cosigner_list := [] |}, tr, Returned tt).
Proof.
  intros Hs. unfold update, update_listener. rewrite Hs. cbn [Nat.eqb negb].
  apply map_size_empty_inv in Hs. rewrite Hs, map_to_list_empty.
  cbn [for_wallets fst snd].
  destruct (listener p) as [l|]; [destruct (Listener.stop srvs l)|]; eauto.
Qed.

(** A listener started by [update] is a new object: nothing received. *)
Lemma update_starts_afresh p :
  listener p = None -> size (available_wallets p) ≠ 0 ->
  ∃ l, listener (update E srvs p).1.1 = Some l
       ∧ Listener.received l = ∅ ∧ Listener.running l = true
       ∧ Listener.at_pc l = Listener.AtWhile.
Proof.
  intros Hl Hs. unfold update, update_listener. rewrite Hl.
  destruct (Nat.eqb_spec (size (available_wallets p)) 0) as [|_]; [done|].
  cbn [negb].
  destruct (for_wallets E _ _) as [d [u|e]]; cbn; eauto.
Qed.

(** After [update], entries in [self.keys] come with a listener. *)
Lemma update_keys_listener p :
  keys (update E srvs p).1.1 ≠ [] -> is_Some (listener (update E srvs p).1.1).
Proof.
  destruct (Nat.eqb_spec (size (available_wallets p)) 0) as [Hs|Hs].
  - destruct (update_no_wallets p Hs) as [tr ->]. done.
  - intros _. unfold update, update_listener.
    destruct (Nat.eqb_spec (size (available_wallets p)) 0) as [|_]; [done|].
    cbn [negb].
    destruct (listener p), (for_wallets E _ _) as [d [u|e]]; cbn; eauto.
Qed.

End Update.

Section Send.
Context (E : Externals) (srv : Server) (tx : Transaction).

Lemma do_send_loop_ok before rest :
  Forall (put_ok E srv tx) before ->
  do_send_loop E srv tx (before ++ rest)
  = flat_map (sent E tx) before ++ do_send_loop E srv tx rest.
Proof.
  induction 1 as [|[[[window xpub] K] h] before Hok _ IH]; [done|].
  cbn [app do_send_loop flat_map]. unfold put_ok in Hok. unfold sent at 1. cbn [fst snd] in *.
  destruct (cosigner_can_sign E tx xpub); cbn [negb]; [|done].
  rewrite Hok by done. by rewrite IH.
Qed.

Lemma do_send_loop_fail window xpub K h rest e :
  cosigner_can_sign E tx xpub = true ->
  server_put srv h (encrypt_message E (raw tx) K) = Raised e ->
  do_send_loop E srv tx ((window, xpub, K, h) :: rest)
  = [ServerPut h (encrypt_message E (raw tx) K) (Raised e); PrintExc;
     ShowMessage window send_failed_text].
Proof. intros Hc Hp. cbn [do_send_loop]. by rewrite Hc, Hp. Qed.

End Send.

Section Receive.

(** The prompt neither deletes nor shows a transaction. *)
Lemma ask_no_delete (H : Host) (window : Window) :
  count is_delete (ask H window).1 = 0
  ∧ count is_show_transaction (ask H window).1 = 0.
Proof. unfold ask. by destruct (use_encryption (wallet window)). Qed.

Lemma open_key_trace (H : Host) (window : Window) (key : string) :
  (open_key H window key).1 = (ask H window).1.
Proof.
  unfold open_key. destruct (ask H window) as [tr [password|]]; [|done].
  by destruct (get_master_private_key H (wallet window) key password).
Qed.

(** The key handed to the cipher is the deserialized private key
    itself: hex encoding and decoding cancel out, so the [try] block
    fails only where deserialization or decryption does. *)
Lemma decrypt_spec (E : Externals) (xprv message : string) :
  decrypt E xprv message
  = match deserialize_xkey E xprv with
    | Raised e => Raised e
    | Returned key_bytes => decrypt_message E key_bytes message
    end.
Proof.
  unfold decrypt. destruct (deserialize_xkey E xprv) as [kb|e]; [|done].
  by rewrite decode_encode_hex.
Qed.

End Receive.

End PluginFacts.

(** * The claims *)

Section ListenerClaims.
Import Listener ListenerFacts.

(** C2. Once the listener has put an identifier into [received] after a
    [get] that returned a message, no later statement of the polling
    loop emits another notification for it until [clear] is called for
    it: whatever the callers and the thread do meanwhile, the only
    notification still emitted is the one under way for that very
    message, and the identifier stays in [received]. The identifier is
    put into [received] before the notification is emitted: at every
    emission it is already in the set. *)
Theorem received_before_emit_no_renotify (k : string) :
  (∀ l sched srv m,
      fresh k l -> no_clear k sched = true ->
      Emit k m ∈ (run_step srv (run_schedule sched l).1).2 ->
      k ∈ received (run_schedule sched l).1)
  ∧ (∀ sched0 sched,
      no_clear k sched = true ->
      k ∈ received (run_schedule sched0 (start init)).1 ->
      count (is_emit k)
          (run_schedule sched (run_schedule sched0 (start init)).1).2
        + owed k (at_pc (run_schedule sched
                           (run_schedule sched0 (start init)).1).1)
        = owed k (at_pc (run_schedule sched0 (start init)).1)
      ∧ (pending k (at_pc (run_schedule sched0 (start init)).1) = false ->
         count (is_emit k)
           (run_schedule sched (run_schedule sched0 (start init)).1).2 = 0)
      ∧ k ∈ received (run_schedule sched
                        (run_schedule sched0 (start init)).1).1).
Proof.
  split.
  - intros l sched srv m Hf Hnc Hemit.
    apply run_step_emit in Hemit as [rest Hpc].
    apply sched_pending_received; [done|done|..]; rewrite Hpc; cbn;
      [apply String.eqb_refl|reflexivity].
  - intros sched0 sched Hnc Hk.
    assert (Hs : secured k (run_schedule sched0 (start init)).1).
    { split; [by left|].
      destruct (polling k _) eqn:Hp; [|done].
      by apply sched_polling in Hp. }
    destruct (sched_secured sched _ k Hnc Hs) as (_ & _ & He & Hr).
    split_and!; [done| |auto].
    intros Hp. unfold owed in He. rewrite Hp in He. lia.
Qed.

Lemma received_before_emit_no_renotify_witness :
  Fixture.hash_a
    ∈ received (run_schedule (Fixture.ticks 6 (Fixture.server_up Fixture.pool_a))
                  Fixture.watching_a).1.
Proof.
  apply (proj1 (received_before_emit_no_renotify Fixture.hash_a)
           Fixture.watching_a _ (Fixture.server_up Fixture.pool_a) "41:rawtx").
  - split; [apply not_elem_of_empty|reflexivity].
  - reflexivity.
  - vm_compute. left.
Defined.

(** C6. [set_keyhashes] replaces the watch set wholesale and leaves
    [received] (and the thread) as they are; an identifier in
    [received] stays there through any sequence of watch-set changes
    and statements of the loop, whether or not it is in the watch set,
    as long as [clear] is not called for it. *)
Theorem set_keyhashes_replaces_keeps_received (l : Listener.t) (ks : list string) :
  keyhashes (set_keyhashes l ks) = ks
  ∧ received (set_keyhashes l ks) = received l
  ∧ running (set_keyhashes l ks) = running l
  ∧ at_pc (set_keyhashes l ks) = at_pc l
  ∧ (∀ k sched, no_clear k sched = true -> k ∈ received l ->
       k ∈ received (run_schedule (SetKeyhashes ks :: sched) l).1).
Proof.
  split_and!; try reflexivity.
  intros k sched Hnc Hk. by apply (sched_received_keep (_ :: _)).
Qed.

Lemma set_keyhashes_replaces_keeps_received_witness :
  Fixture.hash_a
    ∈ received (run_schedule
                  (SetKeyhashes [Fixture.hash_b]
                     :: Fixture.ticks 9 (Fixture.server_up Fixture.pool_a)
                     ++ SetKeyhashes [Fixture.hash_a; Fixture.hash_b]
                     :: Fixture.ticks 9 (Fixture.server_up Fixture.pool_a))
                  Fixture.notified_a).1.
Proof.
  apply (proj2 (proj2 (proj2 (proj2
           (set_keyhashes_replaces_keeps_received Fixture.notified_a
              [Fixture.hash_b]))))).
  - reflexivity.
  - vm_compute. reflexivity.
Defined.

(** C9. [clear] calls the remote delete first and removes the
    identifier from [received] only when that call has returned: when
    the delete raises, the exception reaches the caller and the
    listener is left as it was, the identifier still marked received. *)
Theorem clear_deletes_before_removing (srv : Server) (l : Listener.t) (k : string) :
  (clear srv l k).1.2 = [ServerDelete k (server_delete srv k)]
  ∧ (∀ e, server_delete srv k = Raised e ->
       clear srv l k = (l, [ServerDelete k (Raised e)], Raised e))
  ∧ (∀ u, server_delete srv k = Returned u -> k ∈ received l ->
       clear srv l k
       = ({| running := running l; received := received l ∖ {[k]};
             keyhashes := keyhashes l; at_pc := at_pc l |},
          [ServerDelete k (Returned u)], Returned tt)).
Proof.
  unfold clear. split_and!.
  - destruct (server_delete srv k); [case_bool_decide|]; reflexivity.
  - intros e ->. reflexivity.
  - intros u -> Hk. by rewrite bool_decide_eq_true_2.
Qed.

Lemma clear_deletes_before_removing_witness :
  clear Fixture.server_down Fixture.notified_a Fixture.hash_a
  = (Fixture.notified_a,
     [ServerDelete Fixture.hash_a (Raised "unreachable")], Raised "unreachable").
Proof.
  apply (proj1 (proj2 (clear_deletes_before_removing Fixture.server_down
                         Fixture.notified_a Fixture.hash_a)) "unreachable").
  reflexivity.
Defined.




Example three_failures_then_one_notification :
  List.filter is_emit_any
    (run_schedule (Fixture.ticks 24 Fixture.server_down
                     ++ Fixture.ticks 30 (Fixture.server_up Fixture.pool_a))
       Fixture.watching_a).2
  = [Emit Fixture.hash_a "41:rawtx"].
Proof. reflexivity. Qed.

End ListenerClaims.

Section PluginClaims.
Import Plugin PluginFacts.

(** C8. [stop] is idempotent: a second [stop] changes nothing and
    emits nothing. Once [stop] has returned, the thread has left its
    loop, wherever in a poll cycle it stood when [stop] was called, and
    no notification is emitted whatever is done with the listener
    afterwards. [update] drops the stopped listener, and the listener
    the next [update] starts begins with an empty [received]. *)
Theorem stop_idempotent_silent_then_fresh
    (E : Externals) (srvs srvs' : nat -> Server) (l : Listener.t) :
  Listener.stop srvs' (Listener.stop srvs l).1 = ((Listener.stop srvs l).1, [])
  ∧ Listener.halted (Listener.at_pc (Listener.stop srvs l).1) = true
  ∧ (∀ sched,
       count is_emit_any
         (Listener.run_schedule sched (Listener.stop srvs l).1).2 = 0)
  ∧ (∀ p, listener p = Some l -> size (available_wallets p) = 0 ->
       listener (update E srvs p).1.1 = None)
  ∧ (∀ p, listener p = None -> size (available_wallets p) ≠ 0 ->
       ∃ l', listener (update E srvs' p).1.1 = Some l'
             ∧ Listener.received l' = ∅ ∧ Listener.running l' = true).
Proof.
  pose proof (ListenerFacts.stop_halted srvs l) as Hh.
  split_and!.
  - unfold Listener.stop at 1.
    rewrite ListenerFacts.signal_stop_stopped
      by apply ListenerFacts.stop_running.
    unfold Listener.steps_left.
    destruct (Listener.at_pc (Listener.stop srvs l).1);
      try discriminate; reflexivity.
  - done.
  - intros sched. by apply ListenerFacts.sched_halted.
  - intros p _ Hs. by destruct (update_no_wallets E srvs p Hs) as [tr ->].
  - intros p Hl Hs.
    destruct (update_starts_afresh E srvs' p Hl Hs) as (l' & ? & ? & ? & _).
    eauto.
Qed.

(** Alice closes her window while the thread is about to fetch. *)
Lemma stop_idempotent_silent_then_fresh_witness :
  listener
    (update Fixture.externals (fun _ => Fixture.server_up Fixture.pool_a)
       {| windows := [Fixture.window_s];
          listener := Some (Listener.run_schedule
                              (Fixture.ticks 3 Fixture.server_down)
                              Fixture.watching_a).1;
          keys := keys Fixture.plugin_a;
          cosigner_list := cosigner_list Fixture.plugin_a |}).1.1
  = None.
Proof.
  apply (proj1 (proj2 (proj2 (proj2
           (stop_idempotent_silent_then_fresh Fixture.externals
              (fun _ => Fixture.server_up Fixture.pool_a)
              (fun _ => Fixture.server_down)
              (Listener.run_schedule (Fixture.ticks 3 Fixture.server_down)
                 Fixture.watching_a).1))))).
  - reflexivity.
  - reflexivity.
Defined.

(** The notification of the poll in flight is emitted while [stop]
    waits, before it returns. *)
Example stop_lets_the_poll_in_flight_finish :
  (Listener.stop (fun _ => Fixture.server_up Fixture.pool_a)
     (Listener.run_schedule (Fixture.ticks 3 Fixture.server_down)
        Fixture.watching_a).1).2
  = [ServerGet Fixture.hash_a (Returned (Some "41:rawtx"));
     PrintError ["received message for"; Fixture.hash_a];
     Emit Fixture.hash_a "41:rawtx"; Sleep 30].
Proof. reflexivity. Qed.

(** C5. [update] builds [self.keys] and [self.cosigner_list] anew from
    the windows on a 2of2 or 2of3 wallet, reading nothing of their
    former contents. When every configured public key is a well-formed
    serialized key, it returns, and then: a key whose private key the
    wallet holds gives the entry (key, hash, window) of [self.keys], a
    key without gives the entry (window, xpub, K, hash) of
    [self.cosigner_list], [K] and the hash being derived from the
    public key, and there are no other entries. With no such window
    both lists are empty. *)
Theorem update_rebuilds_directory
    (E : Externals) (srvs : nat -> Server) (p : Plugin.t) :
  well_formed E p = true ->
  ∃ p' tr, update E srvs p = (p', tr, Returned tt)
    ∧ (∀ key h window, (key, h, window) ∈ keys p' ↔
         ∃ wid xpub K,
           available_wallets p !! wid = Some window
           ∧ master_public_keys (wallet window) !! key = Some xpub
           ∧ derive E xpub = Returned (K, h)
           ∧ truthy_opt (master_private_keys (wallet window) !! key) = true)
    ∧ (∀ window xpub K h, (window, xpub, K, h) ∈ cosigner_list p' ↔
         ∃ wid key,
           available_wallets p !! wid = Some window
           ∧ master_public_keys (wallet window) !! key = Some xpub
           ∧ derive E xpub = Returned (K, h)
           ∧ truthy_opt (master_private_keys (wallet window) !! key) = false)
    ∧ (∀ old, windows old = windows p -> listener old = listener p ->
         update E srvs old = update E srvs p)
    ∧ (size (available_wallets p) = 0 ->
       keys p' = [] ∧ cosigner_list p' = [] ∧ listener p' = None).
Proof.
  intros Hwf.
  destruct (update_directory E srvs p Hwf) as (p' & tr & Hu & Hm & Ht).
  exists p', tr. split_and!; [done|..].
  - intros key h window. rewrite Hm. unfold mine_from. cbn [fst snd]. split.
    + intros (wid & w & key' & xpub & Hw & Hk & K & Hd & Hp & [= <- <-]).
      eauto 10.
    + intros (wid & xpub & K & Hw & Hk & Hd & Hp). eauto 12.
  - intros window xpub K h. rewrite Ht. unfold theirs_from. cbn [fst snd]. split.
    + intros (wid & w & key & xpub' & Hw & Hk & Hd & Hp & [= <- <-]).
      eauto 10.
    + intros (wid & key & Hw & Hk & Hd & Hp). eauto 12.
  - intros old Hw Hl. by apply update_reads.
  - intros Hs. destruct (update_no_wallets E srvs p Hs) as [tr' Hu'].
    rewrite Hu' in Hu. by injection Hu as <- _.
Qed.

Lemma update_rebuilds_directory_witness :
  ∃ p' tr,
    update Fixture.externals (fun _ => Fixture.server_down)
      (Plugin.init [Fixture.window_a; Fixture.window_s])
    = (p', tr, Returned tt)
    ∧ (∀ key h window, (key, h, window) ∈ keys p' ↔
         ∃ wid xpub K,
           available_wallets (Plugin.init [Fixture.window_a; Fixture.window_s])
             !! wid = Some window
           ∧ master_public_keys (wallet window) !! key = Some xpub
           ∧ derive Fixture.externals xpub = Returned (K, h)
           ∧ truthy_opt (master_private_keys (wallet window) !! key) = true)
    ∧ (∀ window xpub K h, (window, xpub, K, h) ∈ cosigner_list p' ↔
         ∃ wid key,
           available_wallets (Plugin.init [Fixture.window_a; Fixture.window_s])
             !! wid = Some window
           ∧ master_public_keys (wallet window) !! key = Some xpub
           ∧ derive Fixture.externals xpub = Returned (K, h)
           ∧ truthy_opt (master_private_keys (wallet window) !! key) = false)
    ∧ (∀ old,
         windows old = windows (Plugin.init [Fixture.window_a; Fixture.window_s]) ->
         listener old = listener (Plugin.init [Fixture.window_a; Fixture.window_s]) ->
         update Fixture.externals (fun _ => Fixture.server_down) old
         = update Fixture.externals (fun _ => Fixture.server_down)
             (Plugin.init [Fixture.window_a; Fixture.window_s]))
    ∧ (size (available_wallets (Plugin.init [Fixture.window_a; Fixture.window_s])) = 0 ->
       keys p' = [] ∧ cosigner_list p' = [] ∧ listener p' = None).
Proof.
  apply (update_rebuilds_directory Fixture.externals
           (fun _ => Fixture.server_down)
           (Plugin.init [Fixture.window_a; Fixture.window_s])).
  vm_compute. reflexivity.
Defined.

(** The directory of the concrete setting: Alice's own key on one
    side, Bob's and Carol's on the other; the single-signature wallet
    contributes nothing. *)
Example directory_of_plugin_a :
  map (fun e : mine => (e.1.1, e.1.2)) (keys Fixture.plugin_a)
  = [("x1/", Fixture.hash_a)]
  ∧ map (fun e : theirs => (e.1.1.2, e.1.2, e.2)) (cosigner_list Fixture.plugin_a)
    = [("xpubC", "43", Fixture.hash_c); ("xpubB", "42", Fixture.hash_b)]
  ∧ (Listener.keyhashes <$> listener Fixture.plugin_a) = Some [Fixture.hash_a].
Proof. vm_compute. auto. Qed.




(** C1, the claim as stated fails. Bob and Carol can both sign; the
    [put] for Carol, who comes first, fails, and nothing is put for
    Bob, although the pool would have taken it. *)
Lemma do_send_stops_counterexample :
  map (fun e : theirs => e.2) (cosigner_list Fixture.plugin_a)
  = [Fixture.hash_c; Fixture.hash_b]
  ∧ cosigner_can_sign Fixture.externals Fixture.tx_bc "xpubB" = true
  ∧ server_put (Fixture.server_flaky Fixture.hash_b) Fixture.hash_b "42:rawtx"
    = Returned tt
  ∧ do_send Fixture.externals (Fixture.server_flaky Fixture.hash_b)
      Fixture.plugin_a Fixture.tx_bc
    = [ServerPut Fixture.hash_c "43:rawtx" (Raised "unreachable"); PrintExc;
       ShowMessage Fixture.window_a send_failed_text]
  ∧ count (is_put Fixture.hash_b)
      (do_send Fixture.externals (Fixture.server_flaky Fixture.hash_b)
         Fixture.plugin_a Fixture.tx_bc) = 0.
Proof. vm_compute. auto 6. Qed.

(** C1, amended. A failure of the [put] for a recipient who can sign is
    reported on that recipient's window and ends the send: the
    recipients before it that can sign have had the payload encrypted,
    put and reported as sent, and nothing is encrypted or put for
    those after it. *)
Theorem do_send_reports_failure_and_stops
    (E : Externals) (srv : Server) (p : Plugin.t) (tx : Transaction)
    (before after : list theirs) (window : Window) (xpub K h e : string) :
  cosigner_list p = before ++ (window, xpub, K, h) :: after ->
  Forall (put_ok E srv tx) before ->
  cosigner_can_sign E tx xpub = true ->
  server_put srv h (encrypt_message E (raw tx) K) = Raised e ->
  do_send E srv p tx
  = flat_map (sent E tx) before
      ++ [ServerPut h (encrypt_message E (raw tx) K) (Raised e); PrintExc;
          ShowMessage window send_failed_text].
Proof.
  intros Hl Hok Hc Hp. unfold do_send. rewrite Hl.
  rewrite (do_send_loop_ok E srv tx before _ Hok).
  by rewrite (do_send_loop_fail E srv tx window xpub K h after e Hc Hp).
Qed.

(** The pool takes the payload for Carol and fails for Bob. *)
Lemma do_send_reports_failure_and_stops_witness :
  do_send Fixture.externals (Fixture.server_flaky Fixture.hash_c)
    Fixture.plugin_a Fixture.tx_bc
  = flat_map (sent Fixture.externals Fixture.tx_bc)
      [(Fixture.window_a, "xpubC", "43", Fixture.hash_c)]
      ++ [ServerPut Fixture.hash_b
            (encrypt_message Fixture.externals (raw Fixture.tx_bc) "42")
            (Raised "unreachable");
          PrintExc; ShowMessage Fixture.window_a send_failed_text].
Proof.
  apply (do_send_reports_failure_and_stops Fixture.externals
           (Fixture.server_flaky Fixture.hash_c) Fixture.plugin_a Fixture.tx_bc
           [(Fixture.window_a, "xpubC", "43", Fixture.hash_c)] []
           Fixture.window_a "xpubB" "42" Fixture.hash_b "unreachable").
  - vm_compute. reflexivity.
  - apply Forall_cons. split; [|apply Forall_nil_2]. intros _. reflexivity.
  - vm_compute. reflexivity.
  - reflexivity.
Defined.

(** C3, the claim as stated fails. The message for Alice decrypts, the
    pool is down when [clear] calls the remote delete: the exception
    leaves [on_receive] and the payload never reaches the viewer. *)
Lemma on_receive_clear_raises_counterexample :
  decrypt Fixture.externals "xprvA" "41:rawtx" = Returned "rawtx"
  ∧ on_receive Fixture.externals Fixture.host_yes Fixture.server_down
      Fixture.plugin_notified Fixture.hash_a "41:rawtx"
    = (Fixture.plugin_notified,
       [PrintError ["signal arrived for"; Fixture.hash_a];
        Question Fixture.window_a question_text;
        ServerDelete Fixture.hash_a (Raised "unreachable")],
       Raised "unreachable")
  ∧ count is_show_transaction
      (on_receive Fixture.externals Fixture.host_yes Fixture.server_down
         Fixture.plugin_notified Fixture.hash_a "41:rawtx").1.2 = 0.
Proof. vm_compute. auto. Qed.

(** C3, amended. For a delivered (identifier, envelope) that the
    handler goes on to decrypt: when decryption fails, the failure is
    shown on the window, the handler returns, and [clear] is not
    called, so that the plugin and its listener are as before (the
    identifier still in [received], no remote delete). When decryption
    succeeds, [clear] is called for the identifier, and when it returns
    normally the decrypted payload is then handed to the transaction
    viewer. *)
Theorem on_receive_decrypts_clears_shows
    (E : Externals) (H : Host) (srv : Server) (p : Plugin.t) (l : Listener.t)
    (keyhash message key h : string) (window : Window)
    (tr1 : trace) (xprv : string) :
  listener p = Some l ->
  List.find (fun e : mine => String.eqb e.1.2 keyhash) (keys p)
    = Some (key, h, window) ->
  open_key H window key = (tr1, Some xprv) ->
  (∀ e, decrypt E xprv message = Raised e ->
     on_receive E H srv p keyhash message
     = (p, [PrintError ["signal arrived for"; keyhash]] ++ tr1
             ++ [PrintExc; ShowMessage window e], Returned tt)
     ∧ count is_delete (on_receive E H srv p keyhash message).1.2 = 0)
  ∧ (∀ payload, decrypt E xprv message = Returned payload ->
       (on_receive E H srv p keyhash message).1.2
       = [PrintError ["signal arrived for"; keyhash]] ++ tr1
           ++ ServerDelete keyhash (server_delete srv keyhash)
           :: match (on_receive E H srv p keyhash message).2 with
              | Returned _ => [ShowTransaction payload window]
              | Raised _ => []
              end
       ∧ (on_receive E H srv p keyhash message).2
         = (Listener.clear srv l keyhash).2
       ∧ (∀ u, server_delete srv keyhash = Returned u ->
            keyhash ∈ Listener.received l ->
            on_receive E H srv p keyhash message
            = ({| windows := windows p;
                  listener :=
                    Some {| Listener.running := Listener.running l;
                            Listener.received := Listener.received l ∖ {[keyhash]};
                            Listener.keyhashes := Listener.keyhashes l;
                            Listener.at_pc := Listener.at_pc l |};
                  keys := keys p; cosigner_list := cosigner_list p |},
               [PrintError ["signal arrived for"; keyhash]] ++ tr1
                 ++ [ServerDelete keyhash (Returned u);
                     ShowTransaction payload window],
               Returned tt))).
Proof.
  intros Hl Hfind Hopen.
  pose proof (open_key_trace H window key) as Htr. rewrite Hopen in Htr.
  cbn [fst] in Htr.
  unfold on_receive. rewrite Hfind, Hopen. split.
  - intros e ->. split; [reflexivity|]. cbn [fst snd].
    rewrite !count_app, Htr. destruct (ask_no_delete H window) as [-> _].
    reflexivity.
  - intros payload ->. unfold listener_clear. rewrite Hl.
    pose proof (ListenerFacts.clear_trace srv l keyhash) as Hc.
    destruct (Listener.clear srv l keyhash) as [[l' tr2] [[]|e]] eqn:Hclear;
      cbn [fst snd] in *; subst tr2; (split_and!; [reflexivity|reflexivity|]).
    + intros u' Hd Hk. unfold Listener.clear in Hclear.
      rewrite Hd, bool_decide_eq_true_2 in Hclear by done.
      injection Hclear as <-. by rewrite Hd.
    + intros u' Hd Hk. unfold Listener.clear in Hclear.
      rewrite Hd, bool_decide_eq_true_2 in Hclear by done. discriminate.
Qed.

Lemma on_receive_decrypts_clears_shows_witness :
  on_receive Fixture.externals Fixture.host_yes (Fixture.server_up ∅)
    Fixture.plugin_notified Fixture.hash_a "42:rawtx"
  = (Fixture.plugin_notified,
     [PrintError ["signal arrived for"; Fixture.hash_a]]
       ++ [Question Fixture.window_a question_text]
       ++ [PrintExc; ShowMessage Fixture.window_a "DecryptError"],
     Returned tt)
  ∧ count is_delete
      (on_receive Fixture.externals Fixture.host_yes (Fixture.server_up ∅)
         Fixture.plugin_notified Fixture.hash_a "42:rawtx").1.2 = 0.
Proof.
  apply (proj1 (on_receive_decrypts_clears_shows Fixture.externals
                  Fixture.host_yes (Fixture.server_up ∅) Fixture.plugin_notified
                  Fixture.notified_a Fixture.hash_a "42:rawtx" "x1/"
                  Fixture.hash_a Fixture.window_a
                  [Question Fixture.window_a question_text] "xprvA"
                  eq_refl eq_refl eq_refl)).
  reflexivity.
Defined.

(** The message for Alice decrypts and the pool takes the delete. *)
Example on_receive_shows_after_clear :
  (on_receive Fixture.externals Fixture.host_yes (Fixture.server_up ∅)
     Fixture.plugin_notified Fixture.hash_a "41:rawtx").1.2
  = [PrintError ["signal arrived for"; Fixture.hash_a];
     Question Fixture.window_a question_text;
     ServerDelete Fixture.hash_a (Returned tt);
     ShowTransaction "rawtx" Fixture.window_a].
Proof. reflexivity. Qed.

(** C10. When the user gives no password, refuses the question, or the
    wallet has no private key for the slot, [on_receive] returns
    without calling [clear]: the plugin and its listener are as
    before, no remote delete is issued. The identifier, once its
    notification has been delivered, therefore stays in [received],
    and the listener emits no further notification for it, whatever
    it and its callers do, short of a [clear] for it. *)
Theorem on_receive_declined_keeps_received
    (E : Externals) (H : Host) (srv : Server) (p : Plugin.t) (l : Listener.t)
    (keyhash message key h : string) (window : Window) :
  listener p = Some l ->
  List.find (fun e : mine => String.eqb e.1.2 keyhash) (keys p)
    = Some (key, h, window) ->
  (use_encryption (wallet window) = true
     ∧ truthy_opt (password_dialog H window password_text) = false)
  ∨ (use_encryption (wallet window) = false
     ∧ question H window question_text = false)
  ∨ (∀ password,
       truthy_opt (get_master_private_key H (wallet window) key password)
       = false) ->
  on_receive E H srv p keyhash message
  = (p, PrintError ["signal arrived for"; keyhash] :: (ask H window).1,
     Returned tt)
  ∧ count is_delete
      (PrintError ["signal arrived for"; keyhash] :: (ask H window).1) = 0
  ∧ (Listener.delivered keyhash l ->
     ∀ sched, Listener.no_clear keyhash sched = true ->
       count (is_emit keyhash) (Listener.run_schedule sched l).2 = 0
       ∧ keyhash ∈ Listener.received (Listener.run_schedule sched l).1).
Proof.
  intros Hl Hfind Hdecl.
  assert (Hopen : open_key H window key = ((ask H window).1, None)).
  { unfold open_key, ask in *.
    destruct Hdecl as [[-> Hp]|[[-> Hq]|Hk]].
    - by rewrite Hp.
    - by rewrite Hq.
    - destruct (use_encryption (wallet window)).
      + destruct (truthy_opt (password_dialog H window password_text)); [|done].
        specialize (Hk (password_dialog H window password_text)).
        destruct (get_master_private_key _ _ _ _) as [xprv|]; [|done].
        cbn in Hk. by rewrite Hk.
      + destruct (question H window question_text); [|done].
        specialize (Hk None).
        destruct (get_master_private_key _ _ _ _) as [xprv|]; [|done].
        cbn in Hk. by rewrite Hk. }
  split_and!.
  - unfold on_receive. by rewrite Hfind, Hopen.
  - change (PrintError ?m :: ?t) with ([PrintError m] ++ t).
    rewrite count_app. by destruct (ask_no_delete H window) as [-> _].
  - intros Hd sched Hnc.
    destruct (ListenerFacts.sched_delivered sched l keyhash Hnc Hd)
      as [(Hr & _) He].
    done.
Qed.

Lemma on_receive_declined_keeps_received_witness :
  on_receive Fixture.externals Fixture.host_no Fixture.server_down
    Fixture.plugin_notified Fixture.hash_a "41:rawtx"
  = (Fixture.plugin_notified,
     PrintError ["signal arrived for"; Fixture.hash_a]
       :: (ask Fixture.host_no Fixture.window_a).1,
     Returned tt)
  ∧ count is_delete
      (PrintError ["signal arrived for"; Fixture.hash_a]
         :: (ask Fixture.host_no Fixture.window_a).1) = 0
  ∧ (Listener.delivered Fixture.hash_a Fixture.notified_a ->
     ∀ sched, Listener.no_clear Fixture.hash_a sched = true ->
       count (is_emit Fixture.hash_a)
         (Listener.run_schedule sched Fixture.notified_a).2 = 0
       ∧ Fixture.hash_a
           ∈ Listener.received (Listener.run_schedule sched Fixture.notified_a).1).
Proof.
  apply (on_receive_declined_keeps_received Fixture.externals Fixture.host_no
           Fixture.server_down Fixture.plugin_notified Fixture.notified_a
           Fixture.hash_a "41:rawtx" "x1/" Fixture.hash_a Fixture.window_a
           eq_refl eq_refl).
  right. left. split; reflexivity.
Defined.

End PluginClaims.

(** * Further properties of the code *)

Module SendFacts.
Import Plugin PluginFacts.

Section CanSign.
Context (E : Externals).

Lemma xpub_set_inner (x : string) (x_pubkeys : list string) (acc : gset string) :
  x ∈ foldl (fun acc x_pubkey =>
               match x_to_xpub E x_pubkey with
               | Some xpub => if truthy xpub then {[xpub]} ∪ acc else acc
               | None => acc
               end) acc x_pubkeys
  ↔ x ∈ acc ∨ ∃ x_pubkey, x_pubkey ∈ x_pubkeys
                ∧ x_to_xpub E x_pubkey = Some x ∧ truthy x = true.
Proof.
  revert acc. induction x_pubkeys as [|y ys IH]; intros acc; cbn [foldl].
  - split; [auto|]. intros [?|(? & Hin & _)]; [done|by apply elem_of_nil in Hin].
  - rewrite IH. setoid_rewrite elem_of_cons.
    destruct (x_to_xpub E y) as [xpub|] eqn:Hy;
      [destruct (truthy xpub) eqn:Ht|].
    + rewrite elem_of_union, elem_of_singleton. split.
      * intros [[->|?]|(z & ? & ?)]; eauto 8.
      * intros [?|(z & [->|?] & Hz & ?)]; eauto 8.
        left. left. congruence.
    + split.
      * intros [?|(z & ? & ?)]; eauto 8.
      * intros [?|(z & [->|?] & Hz & ?)]; eauto 8. congruence.
    + split.
      * intros [?|(z & ? & ?)]; eauto 8.
      * intros [?|(z & [->|?] & Hz & ?)]; eauto 8. congruence.
Qed.

Lemma xpub_set_outer (x : string) (ins : list (list string)) (acc : gset string) :
  x ∈ foldl (fun acc x_pubkeys =>
               foldl (fun acc x_pubkey =>
                        match x_to_xpub E x_pubkey with
                        | Some xpub => if truthy xpub then {[xpub]} ∪ acc else acc
                        | None => acc
                        end) acc x_pubkeys) acc ins
  ↔ x ∈ acc ∨ ∃ txin x_pubkey, txin ∈ ins ∧ x_pubkey ∈ txin
                ∧ x_to_xpub E x_pubkey = Some x ∧ truthy x = true.
Proof.
  revert acc. induction ins as [|txin ins IH]; intros acc; cbn [foldl].
  - split; [auto|].
    intros [?|(? & ? & Hin & _)]; [done|by apply elem_of_nil in Hin].
  - rewrite IH, xpub_set_inner. setoid_rewrite elem_of_cons. split.
    + intros [[?|(y & ? & ?)]|(t & y & ? & ?)]; eauto 10.
    + intros [?|(t & y & [->|?] & ?)]; eauto 10.
Qed.

(** X1. A cosigner can sign a transaction exactly when its xpub is what
    [x_to_xpub] gives for one of the [x_pubkeys] of one of the inputs;
    an input key that [x_to_xpub] maps to the empty string (or to
    [None]) counts for nobody, so the empty xpub can never sign, and
    nobody can sign a transaction without inputs. *)
Theorem cosigner_can_sign_iff (tx : Transaction) (cosigner_xpub : string) :
  (cosigner_can_sign E tx cosigner_xpub = true
   ↔ ∃ txin x_pubkey, txin ∈ inputs tx ∧ x_pubkey ∈ txin
       ∧ x_to_xpub E x_pubkey = Some cosigner_xpub
       ∧ truthy cosigner_xpub = true)
  ∧ cosigner_can_sign E tx "" = false
  ∧ (inputs tx = [] -> cosigner_can_sign E tx cosigner_xpub = false).
Proof.
  assert (Hiff : ∀ x, cosigner_can_sign E tx x = true
            ↔ ∃ txin x_pubkey, txin ∈ inputs tx ∧ x_pubkey ∈ txin
                ∧ x_to_xpub E x_pubkey = Some x ∧ truthy x = true).
  { intros x. unfold cosigner_can_sign. rewrite bool_decide_eq_true.
    rewrite xpub_set_outer. split; [|auto].
    intros [Hin|?]; [|done]. by apply not_elem_of_empty in Hin. }
  split_and!.
  - apply Hiff.
  - apply not_true_is_false. rewrite Hiff.
    intros (? & ? & _ & _ & _ & Ht). discriminate.
  - intros Hno. apply not_true_is_false. rewrite Hiff, Hno.
    intros (? & ? & Hin & _). by apply elem_of_nil in Hin.
Qed.

End CanSign.

Section Send.
Context (E : Externals) (srv : Server) (tx : Transaction).

Lemma do_send_loop_events (l : list theirs) :
  Forall (fun e => is_send_event e = true) (do_send_loop E srv tx l)
  ∧ (∀ k m r, ServerPut k m r ∈ do_send_loop E srv tx l ->
       ∃ window xpub K, (window, xpub, K, k) ∈ l
         ∧ cosigner_can_sign E tx xpub = true
         ∧ m = encrypt_message E (raw tx) K ∧ r = server_put srv k m)
  ∧ (count is_server_put (do_send_loop E srv tx l) ≤ length l)%nat.
Proof.
  induction l as [|[[[window xpub] K] h] l (IH1 & IH2 & IH3)];
    cbn [do_send_loop length].
  - split_and!; [constructor| |cbn; lia].
    intros k m r Hin. by apply elem_of_nil in Hin.
  - destruct (cosigner_can_sign E tx xpub) eqn:Hc; cbn [negb].
    + destruct (server_put srv h (encrypt_message E (raw tx) K)) as [u|e] eqn:Hp.
      * split_and!.
        -- repeat constructor. done.
        -- intros k m r Hin.
           apply elem_of_cons in Hin as [[= -> -> ->]|Hin].
           { exists window, xpub, K. rewrite Hp. split_and!; auto. left. }
           apply elem_of_cons in Hin as [?|Hin]; [discriminate|].
           destruct (IH2 k m r Hin) as (w & x & K' & ? & ?).
           exists w, x, K'. split; [by right|done].
        -- unfold count in *. cbn [List.filter is_server_put length] in *. lia.
      * split_and!.
        -- repeat constructor.
        -- intros k m r Hin.
           apply elem_of_cons in Hin as [[= -> -> ->]|Hin].
           { exists window, xpub, K. rewrite Hp. split_and!; auto. left. }
           apply elem_of_cons in Hin as [?|Hin]; [discriminate|].
           apply elem_of_cons in Hin as [?|Hin]; [discriminate|].
           by apply elem_of_nil in Hin.
        -- cbn. lia.
    + split_and!; [done| |lia].
      intros k m r Hin. destruct (IH2 k m r Hin) as (w & x & K' & ? & ?).
      exists w, x, K'. split; [by right|done].
Qed.

Lemma do_send_loop_nil_iff (l : list theirs) :
  do_send_loop E srv tx l = []
  ↔ Forall (fun t : theirs => cosigner_can_sign E tx t.1.1.2 = false) l.
Proof.
  induction l as [|[[[window xpub] K] h] l IH]; cbn [do_send_loop].
  - split; [constructor|done].
  - rewrite Forall_cons. cbn [fst snd].
    destruct (cosigner_can_sign E tx xpub) eqn:Hc; cbn [negb].
    + split; [|by intros [? _]].
      destruct (server_put srv h _); discriminate.
    + rewrite IH. tauto.
Qed.

Lemma do_send_loop_first (l : list theirs) :
  Exists (fun t : theirs => cosigner_can_sign E tx t.1.1.2 = true) l ->
  ∃ k m rest, do_send_loop E srv tx l = ServerPut k m (server_put srv k m) :: rest.
Proof.
  induction 1 as [[[[window xpub] K] h] l Hc|[[[window xpub] K] h] l _ IH];
    cbn [do_send_loop fst snd] in *.
  - rewrite Hc. cbn [negb].
    destruct (server_put srv h _) as [u|e] eqn:Hp; rewrite <- Hp; eauto.
  - destruct (cosigner_can_sign E tx xpub); cbn [negb]; [|done].
    destruct (server_put srv h _) as [u|e] eqn:Hp; rewrite <- Hp; eauto.
Qed.

Lemma offer_loop_iff (d_wallet : Wallet) (l : list theirs) :
  offer_loop E d_wallet tx l = true
  ↔ ∃ window xpub K h, (window, xpub, K, h) ∈ l
      ∧ wallet_id (wallet window) = wallet_id d_wallet
      ∧ cosigner_can_sign E tx xpub = true.
Proof.
  induction l as [|[[[window xpub] K] h] l IH]; cbn [offer_loop].
  - split; [done|]. intros (? & ? & ? & ? & Hin & _). by apply elem_of_nil in Hin.
  - destruct (Nat.eqb_spec (wallet_id (wallet window)) (wallet_id d_wallet)) as [Hw|Hw];
      [destruct (cosigner_can_sign E tx xpub) eqn:Hc|]; cbn [andb].
    + split; [|done]. intros _. exists window, xpub, K, h. split; [left|done].
    + rewrite IH. split.
      * intros (w & x & K' & h' & ? & ?). exists w, x, K', h'. split; [by right|done].
      * intros (w & x & K' & h' & Hin & Hw' & Hc').
        apply elem_of_cons in Hin as [[= -> -> -> ->]|Hin]; [congruence|eauto 8].
    + rewrite IH. split.
      * intros (w & x & K' & h' & ? & ?). exists w, x, K', h'. split; [by right|done].
      * intros (w & x & K' & h' & Hin & Hw' & Hc').
        apply elem_of_cons in Hin as [[= -> -> -> ->]|Hin]; [congruence|eauto 8].
Qed.

End Send.

(** X2. When the [put] goes through for every recipient who can sign,
    [do_send] goes through the whole directory in order: for each such
    recipient one [put] of the transaction encrypted under its key,
    under its key hash, followed by the success message on its window,
    and nothing for the recipients who cannot sign. *)
Theorem do_send_all_recipients
    (E : Externals) (srv : Server) (p : Plugin.t) (tx : Transaction) :
  Forall (put_ok E srv tx) (cosigner_list p) ->
  do_send E srv p tx = flat_map (sent E tx) (cosigner_list p).
Proof.
  intros Hok. unfold do_send.
  rewrite <- (app_nil_r (cosigner_list p)) at 1.
  rewrite (do_send_loop_ok E srv tx _ [] Hok). cbn. apply app_nil_r.
Qed.

Lemma do_send_all_recipients_witness :
  do_send Fixture.externals (Fixture.server_up Fixture.pool_empty)
    Fixture.plugin_a Fixture.tx_bc
  = flat_map (sent Fixture.externals Fixture.tx_bc) (cosigner_list Fixture.plugin_a).
Proof.
  apply (do_send_all_recipients Fixture.externals
           (Fixture.server_up Fixture.pool_empty) Fixture.plugin_a Fixture.tx_bc).
  apply Forall_forall. intros t _ _. reflexivity.
Defined.

(** X3. [do_send] does nothing at all, neither a [put] nor a message to
    the user, exactly when no entry of the directory can sign the
    transaction. *)
Theorem do_send_silent_iff
    (E : Externals) (srv : Server) (p : Plugin.t) (tx : Transaction) :
  do_send E srv p tx = []
  ↔ Forall (fun t : theirs => cosigner_can_sign E tx t.1.1.2 = false)
      (cosigner_list p).
Proof. apply do_send_loop_nil_iff. Qed.

(** X4. [do_send] only puts, prints a traceback and shows messages: it
    never gets or deletes on the pool. Every [put] is for an entry of
    the directory whose cosigner can sign, under that entry's key hash,
    of the raw transaction encrypted under that entry's key; there are
    at most as many as entries. *)
Theorem do_send_puts_only_for_signers
    (E : Externals) (srv : Server) (p : Plugin.t) (tx : Transaction) :
  Forall (fun e => is_send_event e = true) (do_send E srv p tx)
  ∧ (∀ k m r, ServerPut k m r ∈ do_send E srv p tx ->
       ∃ window xpub K, (window, xpub, K, k) ∈ cosigner_list p
         ∧ cosigner_can_sign E tx xpub = true
         ∧ m = encrypt_message E (raw tx) K ∧ r = server_put srv k m)
  ∧ (count is_server_put (do_send E srv p tx) ≤ length (cosigner_list p))%nat.
Proof. apply do_send_loop_events. Qed.

(** X5. [transaction_dialog_update] shows the send button exactly when
    the transaction is not complete, the wallet of the dialog cannot
    sign it itself, and the directory has an entry of that very wallet
    whose cosigner can sign. *)
Theorem send_button_shown_iff
    (E : Externals) (p : Plugin.t) (d_wallet : Wallet) (tx : Transaction)
    (is_complete can_sign : bool) :
  transaction_dialog_update E p d_wallet tx is_complete can_sign = true
  ↔ is_complete = false ∧ can_sign = false
    ∧ ∃ window xpub K h, (window, xpub, K, h) ∈ cosigner_list p
        ∧ wallet_id (wallet window) = wallet_id d_wallet
        ∧ cosigner_can_sign E tx xpub = true.
Proof.
  unfold transaction_dialog_update.
  destruct is_complete, can_sign; cbn [orb];
    try (split; [discriminate|intros (? & ? & _); discriminate]).
  rewrite offer_loop_iff. tauto.
Qed.

(** X6. Whenever the send button is shown, a click on it ([do_send])
    starts with a [put] to the pool: the button never leads to a send
    that does nothing. *)
Theorem send_button_shown_then_put
    (E : Externals) (srv : Server) (p : Plugin.t) (d_wallet : Wallet)
    (tx : Transaction) (is_complete can_sign : bool) :
  transaction_dialog_update E p d_wallet tx is_complete can_sign = true ->
  ∃ k m rest, do_send E srv p tx = ServerPut k m (server_put srv k m) :: rest.
Proof.
  unfold transaction_dialog_update.
  destruct (is_complete || can_sign); [discriminate|].
  intros (window & xpub & K & h & Hin & _ & Hc)%offer_loop_iff.
  apply do_send_loop_first. apply Exists_exists.
  exists (window, xpub, K, h). split; [done|exact Hc].
Qed.

Lemma send_button_shown_then_put_witness :
  ∃ k m rest,
    do_send Fixture.externals Fixture.server_down Fixture.plugin_a Fixture.tx_bc
    = ServerPut k m (server_put Fixture.server_down k m) :: rest.
Proof.
  apply (send_button_shown_then_put Fixture.externals Fixture.server_down
           Fixture.plugin_a Fixture.wallet_a Fixture.tx_bc false false).
  reflexivity.
Defined.

End SendFacts.

Module ListenerMore.
Import Listener ListenerFacts.

Lemma drain_cons srvs n l :
  drain srvs (S n) l
  = ((drain srvs n (run_step (srvs n) l).1).1,
     (run_step (srvs n) l).2 ++ (drain srvs n (run_step (srvs n) l).1).2).
Proof.
  cbn [drain]. destruct (run_step (srvs n) l) as [l1 t1]. cbn [fst snd].
  by destruct (drain srvs n l1).
Qed.

(** X7. With an empty watch set the thread only sleeps two seconds at
    a time and looks again: it never contacts the pool, emits nothing
    and stays where it is. *)
Theorem empty_watch_set_only_sleeps (srvs : nat -> Server) (n : nat) (l : Listener.t) :
  keyhashes l = [] -> at_pc l = AtWhile -> running l = true ->
  drain srvs n l = (l, replicate n (Sleep 2)).
Proof.
  intros Hk Hp Hr. induction n as [|n IH]; [done|].
  rewrite drain_cons.
  assert (Hs : run_step (srvs n) l = (l, [Sleep 2])).
  { unfold run_step. by rewrite Hp, Hr, Hk. }
  rewrite Hs. cbn [fst snd]. by rewrite IH.
Qed.

Lemma empty_watch_set_only_sleeps_witness :
  drain (fun _ => Fixture.server_up Fixture.pool_a) 5 (start init)
  = (start init, replicate 5 (Sleep 2)).
Proof.
  apply (empty_watch_set_only_sleeps (fun _ => Fixture.server_up Fixture.pool_a)
           5 (start init)); reflexivity.
Defined.

Lemma fetched_app t1 t2 : fetched (t1 ++ t2) = fetched t1 ++ fetched t2.
Proof. apply omap_app. Qed.

Lemma emitted_app t1 t2 : emitted (t1 ++ t2) = emitted t1 ++ emitted t2.
Proof. apply omap_app. Qed.

Lemma act_within (S : gset string) a l :
  within S l ->
  match a with
  | SetKeyhashes ks => forallb (fun k => bool_decide (k ∈ S)) ks = true
  | _ => True
  end ->
  within S (act a l).1
  ∧ Forall (fun k => k ∈ S) (fetched (act a l).2)
  ∧ Forall (fun km => km.1 ∈ S) (emitted (act a l).2).
Proof.
  unfold within. intros [Hk Hh] Ha.
  destruct a as [srv|ks|srv k'|]; cbn [act].
  - step_cases l; cbn [in_hand fetched emitted omap] in *;
      repeat match goal with
             | H : Forall _ (_ :: _) |- _ => apply Forall_cons in H as [? ?]
             end;
      split_and!; repeat constructor; auto.
  - cbn. split_and!; [|done|constructor|constructor].
    apply Forall_forall. intros k Hin.
    rewrite forallb_forall in Ha. apply list_elem_of_In in Hin.
    specialize (Ha k Hin). by apply bool_decide_eq_true in Ha.
  - unfold clear. destruct (server_delete srv k') as [[]|e];
      [case_bool_decide|]; cbn; split_and!; auto; constructor.
  - cbn. split_and!; auto; constructor.
Qed.

(** X8. The thread fetches and notifies only for identifiers of its
    watch sets: when the watch set, what the thread has in hand and
    every watch set installed later lie within [S], every [get] and
    every notification is for an identifier of [S]. *)
Theorem polls_only_watched (S : gset string) (sched : list action) (l : Listener.t) :
  within S l -> watches_within S sched = true ->
  within S (run_schedule sched l).1
  ∧ Forall (fun k => k ∈ S) (fetched (run_schedule sched l).2)
  ∧ Forall (fun km => km.1 ∈ S) (emitted (run_schedule sched l).2).
Proof.
  revert l. induction sched as [|a sched IH]; intros l Hw Hs.
  - cbn. split_and!; [done|constructor|constructor].
  - cbn [watches_within forallb] in Hs. apply andb_true_iff in Hs as [Ha Hs].
    rewrite run_schedule_cons. cbn [fst snd].
    rewrite fetched_app, emitted_app, !Forall_app.
    destruct (act_within S a l Hw) as (Hw1 & Hf1 & He1).
    { destruct a; auto. }
    destruct (IH _ Hw1 Hs) as (Hw2 & Hf2 & He2). auto.
Qed.

(** Alice's listener never asks for Carol's key hash. *)
Lemma polls_only_watched_witness :
  within {[Fixture.hash_a; Fixture.hash_b]}
    (run_schedule (Fixture.ticks 20 (Fixture.server_up Fixture.pool_a)
                     ++ SetKeyhashes [Fixture.hash_b]
                     :: Fixture.ticks 20 Fixture.server_down)
       Fixture.watching_a).1
  ∧ Forall (fun k => k ∈ ({[Fixture.hash_a; Fixture.hash_b]} : gset string))
      (fetched (run_schedule (Fixture.ticks 20 (Fixture.server_up Fixture.pool_a)
                                ++ SetKeyhashes [Fixture.hash_b]
                                :: Fixture.ticks 20 Fixture.server_down)
                  Fixture.watching_a).2)
  ∧ Forall (fun km => km.1 ∈ ({[Fixture.hash_a; Fixture.hash_b]} : gset string))
      (emitted (run_schedule (Fixture.ticks 20 (Fixture.server_up Fixture.pool_a)
                                ++ SetKeyhashes [Fixture.hash_b]
                                :: Fixture.ticks 20 Fixture.server_down)
                  Fixture.watching_a).2).
Proof.
  apply (polls_only_watched {[Fixture.hash_a; Fixture.hash_b]}).
  - split; [|constructor]. apply Forall_cons. split; [|constructor].
    vm_compute. reflexivity.
  - vm_compute. reflexivity.
Defined.

Lemma act_keeps_running a l :
  match a with SignalStop => False | _ => True end ->
  running l = true -> halted (at_pc l) = false ->
  running (act a l).1 = true ∧ halted (at_pc (act a l).1) = false.
Proof.
  intros Ha Hr Hh. destruct a as [srv|ks|srv k'|]; cbn [act]; [| |
    |done].
  - step_cases l; cbn [halted] in *; try discriminate; auto.
  - cbn. auto.
  - unfold clear. destruct (server_delete srv k') as [[]|e];
      [case_bool_decide|]; cbn; auto.
Qed.

(** X9. Nothing but the stop signal ends the loop: whatever the pool
    answers or raises, whatever watch sets are installed and whatever
    is cleared, a running thread is still running and inside its loop
    afterwards. *)
Theorem only_stop_ends_the_loop (sched : list action) (l : Listener.t) :
  no_stop sched = true -> running l = true -> halted (at_pc l) = false ->
  running (run_schedule sched l).1 = true
  ∧ halted (at_pc (run_schedule sched l).1) = false.
Proof.
  revert l. induction sched as [|a sched IH]; intros l Hs Hr Hh; [done|].
  cbn [no_stop forallb] in Hs. apply andb_true_iff in Hs as [Ha Hs].
  rewrite run_schedule_cons. cbn [fst].
  destruct (act_keeps_running a l) as [Hr1 Hh1]; auto.
  by destruct a.
Qed.

Lemma only_stop_ends_the_loop_witness :
  running (run_schedule (Fixture.ticks 50 Fixture.server_down)
             Fixture.watching_a).1 = true
  ∧ halted (at_pc (run_schedule (Fixture.ticks 50 Fixture.server_down)
                     Fixture.watching_a).1) = false.
Proof.
  apply (only_stop_ends_the_loop (Fixture.ticks 50 Fixture.server_down)
           Fixture.watching_a); reflexivity.
Defined.

(** X10. The thread only reads the pool: all it ever does is sleep,
    [get], log and emit; it never puts or deletes, and never removes
    an identifier from [received]. *)
Theorem thread_only_reads (srvs : nat -> Server) (n : nat) (l : Listener.t) :
  Forall (fun e => is_thread_event e = true) (drain srvs n l).2
  ∧ received l ⊆ received (drain srvs n l).1
  ∧ keyhashes (drain srvs n l).1 = keyhashes l.
Proof.
  revert l. induction n as [|n IH]; intros l.
  - cbn. split_and!; [constructor|done|done].
  - rewrite drain_cons. cbn [fst snd].
    destruct (IH (run_step (srvs n) l).1) as (He & Hr & Hk).
    split_and!.
    + apply Forall_app. split; [|done].
      clear. step_cases l; repeat constructor.
    + etrans; [apply run_step_received_mono|done].
    + by rewrite Hk, run_step_keyhashes.
Qed.

(** X11. Once the flag is off the thread leaves the loop after at most
    [steps_left] statements, that is, after finishing the pass it is
    in: no more than five statements plus six for each identifier of
    the watch set or in hand. *)
Theorem flag_off_loop_exits (srvs : nat -> Server) (l : Listener.t) :
  running l = false ->
  halted (at_pc (drain srvs (steps_left l) l).1) = true
  ∧ (steps_left l
     ≤ 5 + 6 * (length (keyhashes l) + length (in_hand (at_pc l))))%nat.
Proof.
  intros Hr. split; [by apply drain_halts|].
  unfold steps_left. destruct (at_pc l); cbn [in_hand length]; lia.
Qed.

Lemma flag_off_loop_exits_witness :
  halted (at_pc (drain (fun _ => Fixture.server_up Fixture.pool_a)
                   (steps_left (signal_stop Fixture.notified_a))
                   (signal_stop Fixture.notified_a)).1) = true
  ∧ (steps_left (signal_stop Fixture.notified_a)
     ≤ 5 + 6 * (length (keyhashes (signal_stop Fixture.notified_a))
                + length (in_hand (at_pc (signal_stop Fixture.notified_a)))))%nat.
Proof.
  apply (flag_off_loop_exits (fun _ => Fixture.server_up Fixture.pool_a)
           (signal_stop Fixture.notified_a)).
  reflexivity.
Defined.

(** *** One uninterrupted pass *)

Section Pass.
Context (srv : Server).

(** The statements of the thread, left alone with a server that does
    not change, carry out the [for] loop as [poll_all] has it. *)
Lemma pass_refines (ks : list string) (l : Listener.t) :
  at_pc l = AtFor ks ->
  ∃ n, (n ≤ 1 + 5 * length ks)%nat
    ∧ drain (fun _ => srv) n l
      = ({| running := running l;
            received := (poll_all srv ks (received l)).1;
            keyhashes := keyhashes l; at_pc := AtCycleSleep |},
         (poll_all srv ks (received l)).2).
Proof.
  revert l. induction ks as [|k rest IH]; intros [r rc kh p] Hp;
    cbn in Hp; subst p; cbn [running received keyhashes].
  - exists 1. split; [cbn; lia|]. reflexivity.
  - cbn [poll_all length].
    destruct (bool_decide (k ∈ rc)) eqn:Hin;
      [|destruct (server_get srv k) as [[message|]|e] eqn:Hg;
        [destruct (truthy message) eqn:Ht|..]];
      match goal with
      | |- context [poll_all srv rest ?rc1] =>
          destruct (IH {| running := r; received := rc1; keyhashes := kh;
                          at_pc := AtFor rest |} eq_refl) as (n & Hn & Hd);
          cbn [running received keyhashes] in Hd;
          destruct (poll_all srv rest rc1) as [rc' tr]
      end;
      [exists (S n)|exists (5 + n)|exists (2 + n)|exists (2 + n)|exists (4 + n)];
      (split; [lia|]); cbn [Nat.add];
      rewrite !drain_cons;
      repeat (cbn [run_step at_pc received with_pc running keyhashes fst snd];
              rewrite ?Hin, ?Hg, ?Ht);
      unfold with_pc; cbn [running received keyhashes at_pc];
      rewrite Hd; reflexivity.
Qed.

(** What a pass leaves in [received]. *)
Lemma poll_all_received (ks : list string) (rc : gset string) (x : string) :
  x ∈ (poll_all srv ks rc).1
  ↔ x ∈ rc ∨ (x ∈ ks ∧ is_Some (present srv x)).
Proof.
  revert rc. induction ks as [|k rest IH]; intros rc; cbn [poll_all].
  - split; [auto|]. intros [?|[Hin _]]; [done|by apply elem_of_nil in Hin].
  - setoid_rewrite elem_of_cons. unfold present in *.
    destruct (bool_decide (k ∈ rc)) eqn:Hin.
    + apply bool_decide_eq_true in Hin. rewrite IH. split.
      * intros [?|[? ?]]; auto.
      * intros [?|[[->|?] ?]]; auto.
    + destruct (server_get srv k) as [[message|]|e] eqn:Hg;
        [destruct (truthy message) eqn:Ht|..];
        match goal with
        | |- context [poll_all srv rest ?rc1] =>
            specialize (IH rc1); destruct (poll_all srv rest rc1) as [rc' tr]
        end; cbn [fst] in *; rewrite IH; clear IH.
      * rewrite elem_of_union, elem_of_singleton. split.
        -- intros [[->|?]|[? ?]]; auto. right. split; [by left|].
           rewrite Hg, Ht. eauto.
        -- intros [?|[[->|?] ?]]; auto.
      * split; [intros [?|[? ?]]; auto|].
        intros [?|[[->|?] Hs]]; auto. rewrite Hg, Ht in Hs. by destruct Hs.
      * split; [intros [?|[? ?]]; auto|].
        intros [?|[[->|?] Hs]]; auto. rewrite Hg in Hs. by destruct Hs.
      * split; [intros [?|[? ?]]; auto|].
        intros [?|[[->|?] Hs]]; auto. rewrite Hg in Hs. by destruct Hs.
Qed.

Lemma emitted_cons (e : event) (tr : trace) :
  emitted (e :: tr)
  = match e with
    | Emit k m => (k, m) :: emitted tr
    | _ => emitted tr
    end.
Proof. by destruct e. Qed.

(** What a pass notifies: each identifier of the list that is not yet
    received and has a message, with that message, once. *)
Lemma poll_all_emitted (ks : list string) (rc : gset string) :
  (∀ x m, (x, m) ∈ emitted (poll_all srv ks rc).2
          ↔ x ∈ ks ∧ (x ∉ rc) ∧ present srv x = Some m)
  ∧ NoDup (emitted (poll_all srv ks rc).2).*1.
Proof.
  revert rc. induction ks as [|k rest IH]; intros rc; cbn [poll_all].
  - split; [|constructor]. intros x m. cbn. split.
    + intros Hin. by apply elem_of_nil in Hin.
    + intros [Hin _]. by apply elem_of_nil in Hin.
  - setoid_rewrite elem_of_cons. unfold present in *.
    destruct (bool_decide (k ∈ rc)) eqn:Hin.
    + apply bool_decide_eq_true in Hin. destruct (IH rc) as [IH1 IH2].
      split; [|done]. intros x m. rewrite IH1. split.
      * intros (? & ? & ?). auto.
      * intros ([->|?] & ? & ?); [done|auto].
    + apply bool_decide_eq_false in Hin.
      destruct (server_get srv k) as [[message|]|e] eqn:Hg;
        [destruct (truthy message) eqn:Ht|..];
        match goal with
        | |- context [poll_all srv rest ?rc1] =>
            destruct (IH rc1) as [IH1 IH2];
            destruct (poll_all srv rest rc1) as [rc' tr]
        end; cbn [fst snd] in *; repeat (rewrite emitted_cons; cbv beta iota);
        clear IH.
      * split.
        -- intros x m. rewrite elem_of_cons, IH1.
           rewrite elem_of_union, elem_of_singleton. split.
           ++ intros [[= -> ->]|(? & ? & ?)].
              ** split_and!; auto. by rewrite Hg, Ht.
              ** split_and!; auto.
           ++ intros ([->|?] & Hn & Hs).
              ** left. rewrite Hg, Ht in Hs. congruence.
              ** destruct (decide (x = k)) as [->|Hne].
                 { left. rewrite Hg, Ht in Hs. congruence. }
                 right. split_and!; auto. intros [?|?]; done.
        -- cbn [fmap list_fmap fst]. constructor; [|done].
           intros Hk. apply list_elem_of_fmap in Hk as ([x m] & Hx & Hk).
           cbn in Hx. subst x. apply IH1 in Hk as (_ & Hn & _).
           apply Hn. apply elem_of_union. left. by apply elem_of_singleton.
      * split; [|done]. intros x m. rewrite IH1. split.
        -- intros (? & ? & ?). auto.
        -- intros ([->|?] & ? & Hs); [|auto]. by rewrite Hg, Ht in Hs.
      * split; [|done]. intros x m. rewrite IH1. split.
        -- intros (? & ? & ?). auto.
        -- intros ([->|?] & ? & Hs); [|auto]. by rewrite Hg in Hs.
      * split; [|done]. intros x m. rewrite IH1. split.
        -- intros (? & ? & ?). auto.
        -- intros ([->|?] & ? & Hs); [|auto]. by rewrite Hg in Hs.
Qed.

(** X12. One pass of the loop over the list [ks], uninterrupted and
    against an unchanging pool, ends at the pause between cycles and
    notifies exactly the identifiers of [ks] that were not yet received
    and have a message waiting, each with its message and each once,
    even when the list names it twice; these join [received]. *)
Theorem uninterrupted_pass (ks : list string) (l : Listener.t) :
  at_pc l = AtFor ks ->
  ∃ n l' tr,
    drain (fun _ => srv) n l = (l', tr)
    ∧ at_pc l' = AtCycleSleep
    ∧ running l' = running l ∧ keyhashes l' = keyhashes l
    ∧ (∀ x, x ∈ received l'
            ↔ x ∈ received l ∨ (x ∈ ks ∧ is_Some (present srv x)))
    ∧ (∀ x m, (x, m) ∈ emitted tr
              ↔ x ∈ ks ∧ (x ∉ received l) ∧ present srv x = Some m)
    ∧ NoDup (emitted tr).*1.
Proof.
  intros Hp. destruct (pass_refines ks l Hp) as (n & _ & Hd).
  destruct (poll_all_emitted ks (received l)) as [He Hn].
  eexists n, _, _. split; [exact Hd|]. cbn [at_pc running keyhashes received].
  split_and!; try done. intros x. apply poll_all_received.
Qed.

End Pass.

Lemma uninterrupted_pass_witness :
  ∃ n l' tr,
    drain (fun _ => Fixture.server_up Fixture.pool_a) n
      (with_pc Fixture.watching_a (AtFor [Fixture.hash_a; Fixture.hash_b; Fixture.hash_a]))
    = (l', tr)
    ∧ at_pc l' = AtCycleSleep
    ∧ running l'
      = running (with_pc Fixture.watching_a
                   (AtFor [Fixture.hash_a; Fixture.hash_b; Fixture.hash_a]))
    ∧ keyhashes l'
      = keyhashes (with_pc Fixture.watching_a
                     (AtFor [Fixture.hash_a; Fixture.hash_b; Fixture.hash_a]))
    ∧ (∀ x, x ∈ received l'
            ↔ x ∈ received (with_pc Fixture.watching_a
                              (AtFor [Fixture.hash_a; Fixture.hash_b; Fixture.hash_a]))
              ∨ (x ∈ [Fixture.hash_a; Fixture.hash_b; Fixture.hash_a]
                 ∧ is_Some (present (Fixture.server_up Fixture.pool_a) x)))
    ∧ (∀ x m, (x, m) ∈ emitted tr
              ↔ x ∈ [Fixture.hash_a; Fixture.hash_b; Fixture.hash_a]
                ∧ (x ∉ received (with_pc Fixture.watching_a
                                   (AtFor [Fixture.hash_a; Fixture.hash_b;
                                           Fixture.hash_a])))
                ∧ present (Fixture.server_up Fixture.pool_a) x = Some m)
    ∧ NoDup (emitted tr).*1.
Proof.
  apply (uninterrupted_pass (Fixture.server_up Fixture.pool_a)
           [Fixture.hash_a; Fixture.hash_b; Fixture.hash_a]
           (with_pc Fixture.watching_a
              (AtFor [Fixture.hash_a; Fixture.hash_b; Fixture.hash_a]))).
  reflexivity.
Defined.



End ListenerMore.

Module PluginMore.
Import Plugin PluginFacts.

Lemma available_fold_sound (ws : list Window) (acc : gmap nat Window) wid w :
  foldl (fun result window =>
           if bool_decide (wallet_type (wallet window) ∈ ["2of2"; "2of3"])
           then <[wallet_id (wallet window) := window]> result
           else result) acc ws !! wid = Some w ->
  acc !! wid = Some w
  ∨ (w ∈ ws ∧ wallet_id (wallet w) = wid ∧ eligible w).
Proof.
  revert acc. induction ws as [|x ws IH]; intros acc; cbn [foldl]; [auto|].
  intros [Hacc|(Hin & ? & ?)]%IH.
  - case_bool_decide as Hx; [|auto].
    apply lookup_insert_Some in Hacc as [[<- <-]|[_ ?]]; [|auto].
    right. split_and!; [left|done|done].
  - right. split_and!; [by right|done|done].
Qed.

Lemma available_fold_keeps (ws : list Window) (acc : gmap nat Window) wid :
  is_Some (acc !! wid) ->
  is_Some (foldl (fun result window =>
                    if bool_decide (wallet_type (wallet window) ∈ ["2of2"; "2of3"])
                    then <[wallet_id (wallet window) := window]> result
                    else result) acc ws !! wid).
Proof.
  revert acc. induction ws as [|x ws IH]; intros acc Hs; cbn [foldl]; [done|].
  apply IH. case_bool_decide; [|done].
  rewrite lookup_insert_is_Some. destruct (decide (wallet_id (wallet x) = wid)); auto.
Qed.

Lemma available_fold_complete (ws : list Window) (acc : gmap nat Window) w :
  w ∈ ws -> eligible w ->
  is_Some (foldl (fun result window =>
                    if bool_decide (wallet_type (wallet window) ∈ ["2of2"; "2of3"])
                    then <[wallet_id (wallet window) := window]> result
                    else result) acc ws !! wallet_id (wallet w)).
Proof.
  revert acc. induction ws as [|x ws IH]; intros acc Hin He; cbn [foldl].
  - by apply elem_of_nil in Hin.
  - apply elem_of_cons in Hin as [<-|Hin]; [|by apply IH].
    apply available_fold_keeps. rewrite bool_decide_eq_true_2 by done.
    rewrite lookup_insert_eq. eauto.
Qed.

(** X14. The wallets [available_wallets] returns are exactly those of
    the windows on a 2of2 or 2of3 wallet: every entry is such a window
    of [self.parent.windows], filed under its own wallet, and every
    such window has its wallet in the dict (with one window per
    wallet); [is_available] holds exactly when there is such a
    window. *)
Theorem available_wallets_spec (p : Plugin.t) :
  (∀ wid w, available_wallets p !! wid = Some w ->
     w ∈ windows p ∧ wallet_id (wallet w) = wid ∧ eligible w)
  ∧ (∀ w, w ∈ windows p -> eligible w ->
       is_Some (available_wallets p !! wallet_id (wallet w)))
  ∧ (is_available p = true ↔ ∃ w, w ∈ windows p ∧ eligible w).
Proof.
  assert (Hsound : ∀ wid w, available_wallets p !! wid = Some w ->
            w ∈ windows p ∧ wallet_id (wallet w) = wid ∧ eligible w).
  { intros wid w [Hn|?]%available_fold_sound; [|done].
    by rewrite lookup_empty in Hn. }
  split_and!; [done|by apply available_fold_complete|].
  unfold is_available. rewrite negb_true_iff, Nat.eqb_neq, map_size_ne_0_lookup.
  split.
  - intros (wid & [w Hw]). destruct (Hsound wid w Hw) as (? & _ & ?). eauto.
  - intros (w & Hin & He). eauto using available_fold_complete.
Qed.

Section Update.
Context (E : Externals).

Lemma well_formed_false_raises (ws : list (nat * Window)) d :
  forallb (fun '(_, window) =>
             forallb (fun '(_, xpub) => deserializes E xpub)
                     (map_to_list (master_public_keys (wallet window)))) ws = false ->
  ∃ d' e, for_wallets E ws d = (d', Raised e).
Proof.
  assert (Hkeys : ∀ window items d,
            forallb (fun '(_, xpub) => deserializes E xpub) items = false ->
            ∃ d' e, for_keys E window items d = (d', Raised e)).
  { intros window items. induction items as [|[key xpub] items IH];
      intros d0 Hf; [discriminate|].
    cbn [forallb] in Hf. cbn [for_keys add_key]. unfold derive, deserializes in *.
    destruct (deserialize_xkey E xpub) as [k|e]; [|eauto].
    cbn [andb] in Hf. destruct (truthy_opt _); by apply IH. }
  revert d. induction ws as [|[wid window] ws IH]; intros d Hf; [discriminate|].
  cbn [forallb] in Hf. cbn [for_wallets].
  destruct (forallb (fun '(_, xpub) => deserializes E xpub)
              (map_to_list (master_public_keys (wallet window)))) eqn:Hk.
  - destruct (for_keys_returns E window _ d Hk) as [d1 ->].
    cbn [andb] in Hf. by apply IH.
  - destruct (Hkeys window _ d Hk) as (d1 & e & ->). eauto.
Qed.

(** X15. [update] raises exactly when a configured public key of an
    available wallet fails to deserialize. *)
Theorem update_raises_iff (srvs : nat -> Server) (p : Plugin.t) :
  (∃ e, (update E srvs p).2 = Raised e) ↔ well_formed E p = false.
Proof.
  unfold update. destruct (update_listener srvs p) as [lst tr].
  destruct (well_formed E p) eqn:Hwf.
  - destruct (for_wallets_returns E _ ([], []) Hwf) as [d ->]. cbn.
    split; [intros [e ?]|]; discriminate.
  - destruct (well_formed_false_raises _ ([], []) Hwf) as (d & e & ->). cbn.
    split; eauto.
Qed.

Lemma update_listener_spec (srvs : nat -> Server) (p : Plugin.t) :
  (is_Some (update_listener srvs p).1 ↔ is_available p = true)
  ∧ (∀ l, listener p = Some l -> is_available p = true ->
       update_listener srvs p = (Some l, [])).
Proof.
  unfold update_listener, is_available.
  destruct (negb (Nat.eqb (size (available_wallets p)) 0)).
  - destruct (listener p) as [l|]; cbn; split; try (split; eauto; fail).
    + by intros l' [= ->] _.
    + discriminate.
  - destruct (listener p) as [l|]; [destruct (Listener.stop srvs l)|]; cbn;
      (split; [split; [by intros [? ?]|discriminate]|discriminate]).
Qed.

(** X16. After [update] a listener exists exactly when a 2of2 or 2of3
    wallet window is open; when [update] returned normally it watches
    the key hashes of [self.keys], in order; and entries in
    [self.keys] always come with a listener. *)
Theorem listener_follows_wallets (srvs : nat -> Server) (p : Plugin.t) :
  (is_Some (listener (update E srvs p).1.1) ↔ is_available p = true)
  ∧ (∀ l', (update E srvs p).2 = Returned tt ->
       listener (update E srvs p).1.1 = Some l' ->
       Listener.keyhashes l'
       = map (fun t : mine => t.1.2) (keys (update E srvs p).1.1))
  ∧ (keys (update E srvs p).1.1 ≠ [] ->
     is_Some (listener (update E srvs p).1.1)).
Proof.
  split_and!; [| |apply update_keys_listener].
  - destruct (update_listener_spec srvs p) as [Hiff _]. rewrite <- Hiff.
    unfold update. destruct (update_listener srvs p) as [lst tr].
    destruct (for_wallets E _ _) as [d [u|e]]; cbn [fst snd listener];
      [|done]. by rewrite fmap_is_Some.
  - intros l'. unfold update. destruct (update_listener srvs p) as [lst tr].
    destruct (for_wallets E _ _) as [d [u|e]]; cbn [fst snd listener keys];
      [|discriminate].
    intros _. destruct lst as [l|]; [|discriminate]. by intros [= <-].
Qed.

(** X17. While wallet windows stay open, [update] keeps the running
    listener: the same thread, where it stands, with everything it has
    received, and no log line; only the watch set is replaced, and it
    is left as it was when [update] raises. *)
Theorem update_keeps_listener (srvs : nat -> Server) (p : Plugin.t) (l : Listener.t) :
  listener p = Some l -> is_available p = true ->
  ∃ l', listener (update E srvs p).1.1 = Some l'
    ∧ Listener.received l' = Listener.received l
    ∧ Listener.running l' = Listener.running l
    ∧ Listener.at_pc l' = Listener.at_pc l
    ∧ (update E srvs p).1.2 = []
    ∧ Listener.keyhashes l'
      = match (update E srvs p).2 with
        | Returned _ => map (fun t : mine => t.1.2) (keys (update E srvs p).1.1)
        | Raised _ => Listener.keyhashes l
        end.
Proof.
  intros Hl Ha. unfold update.
  destruct (update_listener_spec srvs p) as [_ Hkeep].
  rewrite (Hkeep l Hl Ha).
  destruct (for_wallets E _ _) as [d [u|e]]; cbn; eauto 10.
Qed.

(** X18. [update] is idempotent: called again with the same windows it
    changes nothing, logs nothing and ends the same way. *)
Theorem update_idempotent (srvs srvs' : nat -> Server) (p : Plugin.t) :
  update E srvs' (update E srvs p).1.1
  = ((update E srvs p).1.1, [], (update E srvs p).2).
Proof.
  destruct (update_listener_spec srvs p) as [Hiff _].
  unfold update at 2 3 4.
  destruct (update_listener srvs p) as [lst tr]. cbn [fst] in Hiff.
  destruct (for_wallets E (map_to_list (available_wallets p)) ([], []))
    as [d [u|e]] eqn:Hfw; cbn [fst snd].
  - unfold update.
    change (available_wallets {| windows := windows p; listener := _;
                                 keys := _; cosigner_list := _ |})
      with (available_wallets p).
    rewrite Hfw. cbn [windows fst snd].
    destruct lst as [l|]; cbn [fmap option_fmap option_map].
    + assert (Ha : is_available p = true) by (apply Hiff; eauto).
      match goal with
      | |- context [update_listener srvs' ?q] =>
          destruct (update_listener_spec srvs' q) as [_ Hkeep];
          rewrite (Hkeep _ eq_refl Ha)
      end.
      reflexivity.
    + unfold update_listener.
      change (available_wallets {| windows := windows p; listener := _;
                                   keys := _; cosigner_list := _ |})
        with (available_wallets p).
      assert (Ha : is_available p = false).
      { destruct (is_available p); [|done]. by destruct Hiff as [_ [? ?]]. }
      unfold is_available in Ha. rewrite Ha. reflexivity.
  - unfold update.
    change (available_wallets {| windows := windows p; listener := _;
                                 keys := _; cosigner_list := _ |})
      with (available_wallets p).
    rewrite Hfw. cbn [windows fst snd].
    destruct lst as [l|]; cbn [fmap option_fmap option_map].
    + assert (Ha : is_available p = true) by (apply Hiff; eauto).
      match goal with
      | |- context [update_listener srvs' ?q] =>
          destruct (update_listener_spec srvs' q) as [_ Hkeep];
          rewrite (Hkeep _ eq_refl Ha)
      end.
      reflexivity.
    + unfold update_listener.
      change (available_wallets {| windows := windows p; listener := _;
                                   keys := _; cosigner_list := _ |})
        with (available_wallets p).
      assert (Ha : is_available p = false).
      { destruct (is_available p); [|done]. by destruct Hiff as [_ [? ?]]. }
      unfold is_available in Ha. rewrite Ha. reflexivity.
Qed.

End Update.

Lemma update_keeps_listener_witness :
  ∃ l', listener (update Fixture.externals (fun _ => Fixture.server_down)
                    Fixture.plugin_notified).1.1 = Some l'
    ∧ Listener.received l' = Listener.received Fixture.notified_a
    ∧ Listener.running l' = Listener.running Fixture.notified_a
    ∧ Listener.at_pc l' = Listener.at_pc Fixture.notified_a
    ∧ (update Fixture.externals (fun _ => Fixture.server_down)
         Fixture.plugin_notified).1.2 = []
    ∧ Listener.keyhashes l'
      = match (update Fixture.externals (fun _ => Fixture.server_down)
                 Fixture.plugin_notified).2 with
        | Returned _ =>
            map (fun t : mine => t.1.2)
              (keys (update Fixture.externals (fun _ => Fixture.server_down)
                       Fixture.plugin_notified).1.1)
        | Raised _ => Listener.keyhashes Fixture.notified_a
        end.
Proof.
  apply (update_keeps_listener Fixture.externals (fun _ => Fixture.server_down)
           Fixture.plugin_notified Fixture.notified_a); reflexivity.
Defined.

End PluginMore.

Module ReceiveMore.
Import Plugin PluginFacts.

Section Receive.
Context (E : Externals) (H : Host) (srv : Server).

Lemma open_key_no_show (window : Window) (key : string) :
  count is_show_transaction (open_key H window key).1 = 0
  ∧ count is_delete (open_key H window key).1 = 0.
Proof.
  rewrite open_key_trace. destruct (ask_no_delete H window). auto.
Qed.

(** X19. [on_receive] never touches the windows or the directory; of
    the listener it changes nothing but, when all goes well, the
    removal of the identifier from [received]. It hands at most one
    payload to the viewer and calls the remote delete at most once;
    when it raises, nothing was shown and the listener is as before. *)
Theorem on_receive_frame (p : Plugin.t) (keyhash message : string) :
  windows (on_receive E H srv p keyhash message).1.1 = windows p
  ∧ keys (on_receive E H srv p keyhash message).1.1 = keys p
  ∧ cosigner_list (on_receive E H srv p keyhash message).1.1 = cosigner_list p
  ∧ (listener (on_receive E H srv p keyhash message).1.1 = listener p
     ∨ ∃ l, listener p = Some l ∧ keyhash ∈ Listener.received l
         ∧ (on_receive E H srv p keyhash message).2 = Returned tt
         ∧ listener (on_receive E H srv p keyhash message).1.1
           = Some {| Listener.running := Listener.running l;
                     Listener.received := Listener.received l ∖ {[keyhash]};
                     Listener.keyhashes := Listener.keyhashes l;
                     Listener.at_pc := Listener.at_pc l |})
  ∧ (count is_show_transaction (on_receive E H srv p keyhash message).1.2 ≤ 1)%nat
  ∧ (count is_delete (on_receive E H srv p keyhash message).1.2 ≤ 1)%nat
  ∧ (∀ e, (on_receive E H srv p keyhash message).2 = Raised e ->
       listener (on_receive E H srv p keyhash message).1.1 = listener p
       ∧ count is_show_transaction (on_receive E H srv p keyhash message).1.2 = 0).
Proof.
  unfold on_receive.
  destruct (List.find _ (keys p)) as [[[key h] window]|];
    [|cbn; split_and!; auto; discriminate].
  destruct (open_key_no_show window key) as [Hs Hd].
  destruct (open_key H window key) as [tr1 [xprv|]]; cbn [fst] in Hs, Hd.
  2: { cbn [fst snd]. rewrite !count_app, Hs, Hd. cbn.
       split_and!; auto; discriminate. }
  destruct (decrypt E xprv message) as [payload|e].
  2: { cbn [fst snd]. rewrite !count_app, Hs, Hd. cbn.
       split_and!; auto; discriminate. }
  unfold listener_clear. destruct (listener p) as [l|] eqn:Hl.
  2: { cbn [fst snd]. rewrite !count_app, Hs, Hd. cbn.
       split_and!; auto. }
  unfold Listener.clear. destruct (server_delete srv keyhash) as [[]|e].
  - case_bool_decide as Hin; cbn [fst snd windows keys cosigner_list listener];
      rewrite !count_app, Hs, Hd; cbn.
    + split_and!; auto; [|discriminate]. right. eauto.
    + split_and!; auto.
  - cbn [fst snd windows keys cosigner_list listener].
    rewrite !count_app, Hs, Hd. cbn. split_and!; auto.
Qed.

(** X20. A notification for an identifier the current listener has not
    marked received (one emitted by a listener since replaced) is
    decrypted, its remote record is deleted, and then
    [received.remove] raises [KeyError]: the payload is never shown. *)
Theorem on_receive_stale_notification
    (p : Plugin.t) (l : Listener.t) (keyhash message key h : string)
    (window : Window) (tr1 : trace) (xprv payload : string) (u : unit) :
  listener p = Some l ->
  List.find (fun e : mine => String.eqb e.1.2 keyhash) (keys p)
    = Some (key, h, window) ->
  open_key H window key = (tr1, Some xprv) ->
  decrypt E xprv message = Returned payload ->
  keyhash ∉ Listener.received l ->
  server_delete srv keyhash = Returned u ->
  on_receive E H srv p keyhash message
  = (p, [PrintError ["signal arrived for"; keyhash]] ++ tr1
          ++ [ServerDelete keyhash (Returned u)], Raised "KeyError").
Proof.
  intros Hl Hf Ho Hd Hn Hs. unfold on_receive, listener_clear, Listener.clear.
  rewrite Hf, Ho, Hd, Hl, Hs, bool_decide_eq_false_2 by done.
  destruct p. cbn in *. by subst.
Qed.

(** Every exception of [on_receive] is one [clear] raised, as long as
    entries in [self.keys] come with a listener. *)
Lemma on_receive_raises_from_clear (p : Plugin.t) (keyhash message : string) :
  (keys p ≠ [] -> is_Some (listener p)) ->
  (on_receive E H srv p keyhash message).2 = Returned tt
  ∨ ∃ l e, listener p = Some l
      ∧ (Listener.clear srv l keyhash).2 = Raised e
      ∧ (on_receive E H srv p keyhash message).2 = Raised e.
Proof.
  intros Hinv. unfold on_receive.
  destruct (List.find _ (keys p)) as [[[key h] window]|] eqn:Hf; [|by left].
  destruct Hinv as [l Hl].
  { intros Hnil. by rewrite Hnil in Hf. }
  destruct (open_key H window key) as [tr1 [xprv|]]; [|by left].
  destruct (decrypt E xprv message) as [payload|e]; [|by left].
  unfold listener_clear. rewrite Hl.
  destruct (Listener.clear srv l keyhash) as [[l' tr2] [[]|e]] eqn:Hc;
    [by left|].
  right. exists l, e. by rewrite Hc.
Qed.

End Receive.

(** X21. After an [update] that found no wallet window (the listener
    is shut down), every notification still arriving is dropped with
    two log lines: no prompt, no decryption, no call to the pool. *)
Theorem on_receive_after_shutdown_drops
    (E : Externals) (H : Host) (srv : Server) (srvs : nat -> Server)
    (p : Plugin.t) (keyhash message : string) :
  is_available p = false ->
  on_receive E H srv (update E srvs p).1.1 keyhash message
  = ((update E srvs p).1.1,
     [PrintError ["signal arrived for"; keyhash];
      PrintError ["keyhash not found"]],
     Returned tt).
Proof.
  unfold is_available. rewrite negb_false_iff, Nat.eqb_eq. intros Hs.
  destruct (update_no_wallets E srvs p Hs) as [tr ->]. reflexivity.
Qed.

Lemma on_receive_after_shutdown_drops_witness :
  on_receive Fixture.externals Fixture.host_yes Fixture.server_down
    (update Fixture.externals (fun _ => Fixture.server_down)
       (with_windows Fixture.plugin_notified [Fixture.window_s])).1.1
    Fixture.hash_a "41:rawtx"
  = ((update Fixture.externals (fun _ => Fixture.server_down)
        (with_windows Fixture.plugin_notified [Fixture.window_s])).1.1,
     [PrintError ["signal arrived for"; Fixture.hash_a];
      PrintError ["keyhash not found"]],
     Returned tt).
Proof.
  apply (on_receive_after_shutdown_drops Fixture.externals Fixture.host_yes
           Fixture.server_down (fun _ => Fixture.server_down)
           (with_windows Fixture.plugin_notified [Fixture.window_s])
           Fixture.hash_a "41:rawtx").
  reflexivity.
Defined.

Lemma on_receive_stale_notification_witness :
  on_receive Fixture.externals Fixture.host_yes
    (Fixture.server_up Fixture.pool_a) Fixture.plugin_a Fixture.hash_a "41:rawtx"
  = (Fixture.plugin_a,
     [PrintError ["signal arrived for"; Fixture.hash_a]]
       ++ [Question Fixture.window_a question_text]
       ++ [ServerDelete Fixture.hash_a (Returned tt)],
     Raised "KeyError").
Proof.
  apply (on_receive_stale_notification Fixture.externals Fixture.host_yes
           (Fixture.server_up Fixture.pool_a) Fixture.plugin_a
           (Listener.set_keyhashes (Listener.start Listener.init) [Fixture.hash_a])
           Fixture.hash_a "41:rawtx" "x1/" Fixture.hash_a Fixture.window_a
           [Question Fixture.window_a question_text] "xprvA" "rawtx" tt);
    try reflexivity.
  apply not_elem_of_empty.
Defined.

(** X22. On a plugin as [update] leaves it, [on_receive] never fails
    for want of a listener: it returns normally, or raises what
    [clear] raised (the failed remote delete, or [KeyError]). *)
Theorem on_receive_after_update_raises_only_from_clear
    (E : Externals) (H : Host) (srv : Server) (srvs : nat -> Server)
    (p : Plugin.t) (keyhash message : string) :
  (on_receive E H srv (update E srvs p).1.1 keyhash message).2 = Returned tt
  ∨ ∃ l e, listener (update E srvs p).1.1 = Some l
      ∧ (Listener.clear srv l keyhash).2 = Raised e
      ∧ (on_receive E H srv (update E srvs p).1.1 keyhash message).2 = Raised e.
Proof.
  apply on_receive_raises_from_clear. apply update_keys_listener.
Qed.

(** X23. The hex string [K] of a directory entry loses nothing of the
    key: it decodes back to the deserialized key bytes and is twice as
    long; the key hash is the hex form of the digest of [K] (of the hex
    string, not of the raw bytes), twice as long as the digest. *)
Theorem derive_hex_forms (E : Externals) (x K h : string) :
  derive E x = Returned (K, h) ->
  ∃ k, deserialize_xkey E x = Returned k
    ∧ decode_hex K = Some k
    ∧ String.length K = 2 * String.length k
    ∧ h = encode_hex (Hash E K)
    ∧ String.length h = 2 * String.length (Hash E K).
Proof.
  unfold derive. destruct (deserialize_xkey E x) as [k|e]; [|discriminate].
  intros [= <- <-]. exists k.
  rewrite decode_encode_hex, !encode_hex_length. auto.
Qed.

Lemma derive_hex_forms_witness :
  ∃ k, deserialize_xkey Fixture.externals "xpubA" = Returned k
    ∧ decode_hex "41" = Some k
    ∧ String.length "41" = 2 * String.length k
    ∧ Fixture.hash_a = encode_hex (Hash Fixture.externals "41")
    ∧ String.length Fixture.hash_a
      = 2 * String.length (Hash Fixture.externals "41").
Proof.
  apply (derive_hex_forms Fixture.externals "xpubA" "41" Fixture.hash_a).
  reflexivity.
Defined.

(** X24. Closing the last wallet window brings the plugin back to the
    state [__init__] leaves it in: whatever it held, [on_close_window]
    ends with no listener and an empty directory. *)
Theorem close_last_window_resets
    (E : Externals) (srvs : nat -> Server) (p : Plugin.t) (ws : list Window) :
  is_available (with_windows p ws) = false ->
  (on_close_window E srvs (with_windows p ws)).1.1 = Plugin.init ws
  ∧ (on_close_window E srvs (with_windows p ws)).2 = Returned tt.
Proof.
  unfold is_available, on_close_window.
  rewrite negb_false_iff, Nat.eqb_eq. intros Hs.
  destruct (update_no_wallets E srvs _ Hs) as [tr ->]. done.
Qed.

Lemma close_last_window_resets_witness :
  (on_close_window Fixture.externals (fun _ => Fixture.server_down)
     (with_windows Fixture.plugin_notified [Fixture.window_s])).1.1
  = Plugin.init [Fixture.window_s]
  ∧ (on_close_window Fixture.externals (fun _ => Fixture.server_down)
       (with_windows Fixture.plugin_notified [Fixture.window_s])).2
    = Returned tt.
Proof.
  apply (close_last_window_resets Fixture.externals
           (fun _ => Fixture.server_down) Fixture.plugin_notified
           [Fixture.window_s]).
  reflexivity.
Defined.

(** X25. In [on_receive] the key handed to the cipher is the
    deserialized private key itself: encoding it in hex and decoding
    it again cancel out, so the [try] block fails only when
    deserialization or decryption does, never on the hex decoding. *)
Theorem decrypt_uses_deserialized_key (E : Externals) (xprv message : string) :
  decrypt E xprv message
  = match deserialize_xkey E xprv with
    | Raised e => Raised e
    | Returned key_bytes => decrypt_message E key_bytes message
    end.
Proof.
  unfold decrypt. destruct (deserialize_xkey E xprv) as [key_bytes|e]; [|done].
  by rewrite decode_encode_hex.
Qed.

End ReceiveMore.
